(** * Tic-tac-toe rules engine and minimax search (tictactoe.py)

    A shallow embedding of [tictactoe.py]: the board is the nested list the
    program uses, cells are [None], ["X"] or ["O"], an action is a pair of
    integers, and every function that can raise in Python returns in the
    small result monad [res] below.  The recursive search is written with a
    fuel argument; the set of actions is a [gset] and the order in which a
    [for] loop walks it is a parameter of the search.  A second model of
    [result], on a store of list objects, accounts for [copy.deepcopy] and
    the assignment into the copy. *)

From stdpp Require Import gmap list.
From Stdlib Require Import ZArith Lia.

Local Open Scope Z_scope.

(** ** Results of fallible code *)

(** The exceptions of the program: [InvalidAction] is the
    [Exception("Invalid action")] of [result]; [IndexError] and
    [TypeError] are Python's own, for an index out of range and for an
    object of the wrong kind. *)
Inductive exn := IndexError | InvalidAction | TypeError.

(** A computation returns a value, raises, or runs out of the fuel that
    bounds the depth of the recursion. *)
Inductive res (A : Type) :=
  | Ok (a : A)
  | Raise (e : exn)
  | OutOfFuel.
Arguments Ok {A} a.
Arguments Raise {A} e.
Arguments OutOfFuel {A}.

#[global] Instance res_ret : MRet res := fun _ a => Ok a.
#[global] Instance res_bind : MBind res := fun _ _ f m =>
  match m with
  | Ok a => f a
  | Raise e => Raise e
  | OutOfFuel => OutOfFuel
  end.

(** ** Data model *)

(** [X = "X"], [O = "O"], [EMPTY = None]. *)
Inductive Player := X | O.

#[global] Instance Player_eq_dec : EqDecision Player.
Proof. solve_decision. Defined.

Abbreviation cell := (option Player).
Definition EMPTY : cell := None.

Definition cell_eqb (c d : cell) : bool := bool_decide (c = d).

Abbreviation Board := (list (list cell)).
Abbreviation Action := (Z * Z)%type.

(** Values handled by the search: Python integers together with
    [float("inf")] and [float("-inf")]. *)
Inductive ext := NegInf | Fin (z : Z) | PosInf.

#[global] Instance ext_eq_dec : EqDecision ext.
Proof. solve_decision. Defined.

(** [a > b] on such values. *)
Definition ext_gtb (a b : ext) : bool :=
  match a, b with
  | NegInf, _ => false
  | _, PosInf => false
  | Fin x, Fin y => bool_decide (y < x)
  | Fin _, NegInf => true
  | PosInf, _ => true
  end.

(** [a < b]. *)
Definition ext_ltb (a b : ext) : bool := ext_gtb b a.

Definition ext_eqb (a b : ext) : bool := bool_decide (a = b).

Arguments ext_gtb : simpl never.
Arguments ext_ltb : simpl never.
Arguments ext_eqb : simpl never.

(** ** Board model *)

Definition initial_state : Board :=
  [ [EMPTY; EMPTY; EMPTY];
    [EMPTY; EMPTY; EMPTY];
    [EMPTY; EMPTY; EMPTY] ].

(** A board is well formed when it has three rows of three cells. *)
Definition wf (b : Board) : Prop :=
  length b = 3%nat ∧ Forall (fun row => length row = 3%nat) b.

(** [board[i][j]] for non-negative [i] and [j]. *)
Definition cell_at (b : Board) (i j : nat) : res cell :=
  match b !! i with
  | Some row =>
      match row !! j with
      | Some c => Ok c
      | None => Raise IndexError
      end
  | None => Raise IndexError
  end.

(** [row.count(c)]. *)
Fixpoint count (c : cell) (row : list cell) : nat :=
  match row with
  | [] => 0
  | d :: row' => ((if cell_eqb d c then 1 else 0) + count c row')%nat
  end.

(** [sum(row.count(c) for row in board)]. *)
Definition count_board (c : cell) (b : Board) : nat :=
  foldr (fun row acc => (count c row + acc)%nat) 0%nat b.

(** ** Rules engine *)

Definition player (b : Board) : Player :=
  let x_count := count_board (Some X) b in
  let o_count := count_board (Some O) b in
  if bool_decide (x_count ≤ o_count)%nat then X else O.

(** The pairs added by the inner loop of [actions] for row [i]. *)
Definition row_actions (i : nat) (row : list cell) : list Action :=
  omap id (imap (fun j c =>
                   if cell_eqb c EMPTY then Some (Z.of_nat i, Z.of_nat j)
                   else None) row).

(** The pairs [actions] adds, in the order it adds them. *)
Definition actions_list (b : Board) : list Action :=
  concat (imap row_actions b).

Definition actions (b : Board) : gset Action :=
  list_to_set (actions_list b).

(** [l[i] = v] on a Python list: a negative index counts from the end,
    an index out of range raises. *)
Definition py_setitem {A} (l : list A) (i : Z) (v : A) : res (list A) :=
  let n := Z.of_nat (length l) in
  let k := if bool_decide (i < 0) then i + n else i in
  if bool_decide (0 ≤ k < n) then Ok (<[Z.to_nat k := v]> l)
  else Raise IndexError.

(** [l[i]] on a Python list, same index rules. *)
Definition py_getitem {A} (l : list A) (i : Z) : res A :=
  let n := Z.of_nat (length l) in
  let k := if bool_decide (i < 0) then i + n else i in
  if bool_decide (0 ≤ k < n) then
    match l !! Z.to_nat k with
    | Some x => Ok x
    | None => Raise IndexError
    end
  else Raise IndexError.

(** [result] on board values: the copy made by [copy.deepcopy] is the
    board value itself, and the write into the copy is an update of one
    cell of that value.  This is what the program does on a board whose
    rows are separate list objects, as all boards built by
    [initial_state] and [result] are.  The store model further down,
    [result_st], spells out [copy.deepcopy] and the write into the copy,
    and covers a board whose rows are one shared object as well. *)
Definition result (b : Board) (a : Action) : res Board :=
  if bool_decide (a ∈ actions b) then
    let new_board := b in
    let '(i, j) := a in
    row ← py_getitem new_board i;
    row' ← py_setitem row j (Some (player b));
    py_setitem new_board i row'
  else Raise InvalidAction.

(** [board[p] == board[q] == board[r] != EMPTY], a chained comparison:
    operands are evaluated left to right, each once, and evaluation stops
    at the first comparison that is false. *)
Definition line3 (b : Board) (p q r : nat * nat) : res bool :=
  x ← cell_at b p.1 p.2;
  y ← cell_at b q.1 q.2;
  if cell_eqb x y then
    z ← cell_at b r.1 r.2;
    if cell_eqb y z then Ok (negb (cell_eqb z EMPTY)) else Ok false
  else Ok false.

(** [if <line p q r>: return board[p]], otherwise go on with [k]. *)
Definition check_line (b : Board) (p q r : nat * nat) (k : res cell)
  : res cell :=
  t ← line3 b p q r;
  if (t : bool) then cell_at b p.1 p.2 else k.

Definition winner (b : Board) : res cell :=
  foldr (fun i k =>
           check_line b (i, 0%nat) (i, 1%nat) (i, 2%nat)
             (check_line b (0%nat, i) (1%nat, i) (2%nat, i) k))
        (check_line b (0%nat, 0%nat) (1%nat, 1%nat) (2%nat, 2%nat)
           (check_line b (0%nat, 2%nat) (1%nat, 1%nat) (2%nat, 0%nat)
              (Ok None)))
        (seq 0 3).

(** [all(cell != EMPTY for row in board for cell in row)]. *)
Definition board_full (b : Board) : bool :=
  forallb (fun c => negb (cell_eqb c EMPTY)) (concat b).

Definition terminal (b : Board) : res bool :=
  w ← winner b;
  if negb (cell_eqb w None) then Ok true
  else if board_full b then Ok true
  else Ok false.

Definition utility (b : Board) : res Z :=
  w ← winner b;
  if cell_eqb w (Some X) then Ok 1
  else
    w' ← winner b;
    if cell_eqb w' (Some O) then Ok (-1) else Ok 0.

(** ** Minimax search *)

Section Search.
(** The order in which [for action in actions(board)] walks the set. *)
Variable order : gset Action → list Action.

(** The body of the [for] loop of [max_value], over the actions still
    to visit, with the current [v] and [best_action]. *)
Fixpoint max_loop (rec : Board → res (ext * option Action))
    (b : Board) (todo : list Action) (v : ext)
    (best_action : option Action) : res (ext * option Action) :=
  match todo with
  | [] => Ok (v, best_action)
  | action :: todo' =>
      b' ← result b action;
      r ← rec b';
      let min_val := r.1 in
      let '(v, best_action) :=
        if ext_gtb min_val v then (min_val, Some action)
        else (v, best_action) in
      if ext_eqb v (Fin 1) then Ok (v, best_action)
      else max_loop rec b todo' v best_action
  end.

Fixpoint min_loop (rec : Board → res (ext * option Action))
    (b : Board) (todo : list Action) (v : ext)
    (best_action : option Action) : res (ext * option Action) :=
  match todo with
  | [] => Ok (v, best_action)
  | action :: todo' =>
      b' ← result b action;
      r ← rec b';
      let max_val := r.1 in
      let '(v, best_action) :=
        if ext_ltb max_val v then (max_val, Some action)
        else (v, best_action) in
      if ext_eqb v (Fin (-1)) then Ok (v, best_action)
      else min_loop rec b todo' v best_action
  end.

Fixpoint max_value (fuel : nat) (b : Board) : res (ext * option Action) :=
  match fuel with
  | 0%nat => OutOfFuel
  | S fuel' =>
      t ← terminal b;
      if (t : bool) then u ← utility b; Ok (Fin u, None)
      else max_loop (min_value fuel') b (order (actions b)) NegInf None
  end
with min_value (fuel : nat) (b : Board) : res (ext * option Action) :=
  match fuel with
  | 0%nat => OutOfFuel
  | S fuel' =>
      t ← terminal b;
      if (t : bool) then u ← utility b; Ok (Fin u, None)
      else min_loop (max_value fuel') b (order (actions b)) PosInf None
  end.

Definition minimax (fuel : nat) (b : Board) : res (option Action) :=
  t ← terminal b;
  if (t : bool) then Ok None
  else if bool_decide (player b = X) then
    r ← max_value fuel b; Ok r.2
  else
    r ← min_value fuel b; Ok r.2.

(** Self-play: both sides move with [minimax] until it returns [None]. *)
Fixpoint self_play (steps fuel : nat) (b : Board) : res Board :=
  match steps with
  | 0%nat => OutOfFuel
  | S steps' =>
      m ← minimax fuel b;
      match m with
      | None => Ok b
      | Some action => b' ← result b action; self_play steps' fuel b'
      end
  end.
End Search.

(** The number of empty cells of a board. *)
Definition empties (b : Board) : nat := count_board EMPTY b.

(** An enumeration order lists exactly the elements of the set. *)
Definition order_ok (order : gset Action → list Action) : Prop :=
  ∀ s, order s ≡ₚ elements s.

Definition board2 : Board :=
  [ [Some X; Some X; EMPTY];
    [Some O; Some O; EMPTY];
    [EMPTY; EMPTY; EMPTY] ].

(** A full board without a winning line. *)
Definition board_draw : Board :=
  [ [Some X; Some O; Some X];
    [Some O; Some X; Some O];
    [Some O; Some X; Some O] ].

(** ** Reference runs of the search

    The search run with the order [elements] and with just enough fuel:
    the other runs are compared with these. *)

Definition max_ref (b : Board) : res (ext * option Action) :=
  max_value elements (S (empties b)) b.

Definition min_ref (b : Board) : res (ext * option Action) :=
  min_value elements (S (empties b)) b.

(** The integer a run returned, [0] when it returned none. *)
Definition value_of (r : res (ext * option Action)) : Z :=
  match r with
  | Ok (Fin z, _) => z
  | _ => 0
  end.

(** The reference value of the child of [b] reached by action [a]. *)
Definition child_val (ref : Board → res (ext * option Action))
    (b : Board) (a : Action) : Z :=
  match result b a with
  | Ok b' => value_of (ref b')
  | _ => 0
  end.

(** What one run of [max_value] or [min_value] on [b] delivers: an
    integer value in [-1..1] that the reference run returns as well,
    no action on a terminal board, and otherwise a legal action whose
    child has that same reference value. *)
Definition node_ok (run ref child_ref : Board → res (ext * option Action))
    (b : Board) : Prop :=
  ∃ v a a0,
    run b = Ok (Fin v, a) ∧ ref b = Ok (Fin v, a0) ∧ -1 ≤ v ≤ 1 ∧
    (terminal b = Ok true → a = None ∧ utility b = Ok v) ∧
    (terminal b = Ok false →
       ∃ x b' a', a = Some x ∧ result b x = Ok b' ∧
                  child_ref b' = Ok (Fin v, a')).


(** ** Sequences of moves *)

(** [play b acts]: the board after applying the actions [acts] one after
    the other with [result], starting from [b]. *)
Fixpoint play (b : Board) (acts : list Action) : res Board :=
  match acts with
  | [] => Ok b
  | a :: acts' => b' ← result b a; play b' acts'
  end.

Definition opponent (p : Player) : Player :=
  match p with
  | X => O
  | O => X
  end.

(** The mark counts of a position of a game: as many [X] as [O], or one
    [X] more. *)
Definition balanced (b : Board) : Prop :=
  count_board (Some X) b = count_board (Some O) b ∨
  count_board (Some X) b = S (count_board (Some O) b).

(** The reference value of a position for the side to move. *)
Definition game_value (b : Board) : Z :=
  if bool_decide (player b = X) then value_of (max_ref b)
  else value_of (min_ref b).

(** What the children of [b] are worth: [val a] is the value [rec]
    returns on [result b a], an integer in [-1..1]. *)
Definition children_ok (rec : Board → res (ext * option Action))
    (b : Board) (val : Action → Z) (todo : list Action) : Prop :=
  ∀ a, a ∈ todo →
    ∃ b' x, result b a = Ok b' ∧ rec b' = Ok (Fin (val a), x) ∧
            -1 ≤ val a ≤ 1.

(** ** The board as Python objects

    [result] copies its argument with [copy.deepcopy] and writes into the
    copy.  Here the board is a list object that holds references to three
    row objects, and the functions that allocate or write thread the store
    of objects through. *)

Abbreviation loc := positive.

Inductive obj :=
  | ORow (cells : list cell)
  | OBoard (rows : list loc).

Abbreviation heap := (gmap loc obj).

(** Computations on the store that may raise. *)
Definition St (A : Type) : Type := heap → heap * res A.

#[global] Instance St_ret : MRet St := λ _ a h, (h, Ok a).
#[global] Instance St_bind : MBind St := λ _ _ f m h,
  match m h with
  | (h', Ok a) => f a h'
  | (h', Raise e) => (h', Raise e)
  | (h', OutOfFuel) => (h', OutOfFuel)
  end.

Definition st_lift {A} (r : res A) : St A := λ h, (h, r).

Definition load_row (r : loc) : St (list cell) := λ h,
  match h !! r with
  | Some (ORow cs) => (h, Ok cs)
  | _ => (h, Raise TypeError)
  end.

Definition load_outer (l : loc) : St (list loc) := λ h,
  match h !! l with
  | Some (OBoard rs) => (h, Ok rs)
  | _ => (h, Raise TypeError)
  end.

Definition alloc (o : obj) : St loc := λ h,
  let l := fresh (dom h) in (<[l := o]> h, Ok l).

Definition store (l : loc) (o : obj) : St unit := λ h,
  (<[l := o]> h, Ok tt).

Fixpoint load_rows (rs : list loc) : St Board :=
  match rs with
  | [] => mret []
  | r :: rs' => cs ← load_row r; css ← load_rows rs'; mret (cs :: css)
  end.

(** The nested list a board reference stands for. *)
Definition read_board (board : loc) : St Board :=
  rs ← load_outer board; load_rows rs.

(** [copy.deepcopy] on the rows: a row met before is not copied again,
    the copy made then is used ([memo]); the cells are immutable and
    shared. *)
Fixpoint copy_rows (memo : gmap loc loc) (rs : list loc) : St (list loc) :=
  match rs with
  | [] => mret []
  | r :: rs' =>
      match memo !! r with
      | Some r' => rs'' ← copy_rows memo rs'; mret (r' :: rs'')
      | None =>
          cs ← load_row r;
          r' ← alloc (ORow cs);
          rs'' ← copy_rows (<[r := r']> memo) rs';
          mret (r' :: rs'')
      end
  end.

Definition deepcopy (board : loc) : St loc :=
  rs ← load_outer board;
  new ← alloc (OBoard []);
  rs' ← copy_rows ∅ rs;
  _ ← store new (OBoard rs');
  mret new.

(** [initial_state()] builds three row objects and the list of them. *)
Definition initial_state_st : St loc :=
  r0 ← alloc (ORow [EMPTY; EMPTY; EMPTY]);
  r1 ← alloc (ORow [EMPTY; EMPTY; EMPTY]);
  r2 ← alloc (ORow [EMPTY; EMPTY; EMPTY]);
  alloc (OBoard [r0; r1; r2]).

(** [result] on board references. *)
Definition result_st (board : loc) (action : Action) : St loc :=
  b ← read_board board;
  if bool_decide (action ∈ actions b) then
    new_board ← deepcopy board;
    let '(i, j) := action in
    b1 ← read_board board;
    rows ← load_outer new_board;
    r ← st_lift (py_getitem rows i);
    cs ← load_row r;
    cs' ← st_lift (py_setitem cs j (Some (player b1)));
    _ ← store r (ORow cs');
    mret new_board
  else st_lift (Raise InvalidAction).

(** Reference [l] holds the board [b] in store [h]: a list of distinct
    row objects whose cells are the rows of [b]. *)
Definition is_board (h : heap) (l : loc) (b : Board) : Prop :=
  ∃ rs, h !! l = Some (OBoard rs) ∧ NoDup rs ∧
        Forall2 (λ r cs, h !! r = Some (ORow cs)) rs b.

(** The store after [initial_state()] has run on the empty store; the
    board is at reference [4]. *)
Definition heap0 : heap := (initial_state_st ∅).1.

(** A store in which the board at reference [2] holds the same row
    object three times, like the Python value [[[None] * 3] * 3]: read
    cell by cell it is the empty board. *)
Definition heap_shared : heap :=
  <[2%positive := OBoard [1; 1; 1]%positive]>
    (<[1%positive := ORow [EMPTY; EMPTY; EMPTY]]> ∅).

(** ** Lines of the board *)

(** The eight lines, in the order in which [winner] tests them. *)
Definition lines : list ((nat * nat) * (nat * nat) * (nat * nat)) :=
  [ ((0, 0), (0, 1), (0, 2)); ((0, 0), (1, 0), (2, 0));
    ((1, 0), (1, 1), (1, 2)); ((0, 1), (1, 1), (2, 1));
    ((2, 0), (2, 1), (2, 2)); ((0, 2), (1, 2), (2, 2));
    ((0, 0), (1, 1), (2, 2)); ((0, 2), (1, 1), (2, 0)) ]%nat.

(** The three cells of line [l] hold the mark of [p]. *)
Definition line_of (b : Board) (p : Player)
    (l : (nat * nat) * (nat * nat) * (nat * nat)) : Prop :=
  cell_at b l.1.1.1 l.1.1.2 = Ok (Some p) ∧
  cell_at b l.1.2.1 l.1.2.2 = Ok (Some p) ∧
  cell_at b l.2.1 l.2.2 = Ok (Some p).

(** Coordinates of a line within the board. *)
Definition line_in_range (l : (nat * nat) * (nat * nat) * (nat * nat))
  : Prop :=
  (l.1.1.1 < 3 ∧ l.1.1.2 < 3 ∧ l.1.2.1 < 3 ∧ l.1.2.2 < 3 ∧
   l.2.1 < 3 ∧ l.2.2 < 3)%nat.

(** ** Games against the search *)

(** [ai_game order fuel ai b b']: the board [b'] is reached from [b] in
    a game in which the side [ai] plays the moves [minimax] returns and
    the other side plays any legal move; nobody moves on a terminal
    board. *)
Inductive ai_game (order : gset Action → list Action) (fuel : nat)
    (ai : Player) : Board → Board → Prop :=
  | ai_game_here (b : Board) : ai_game order fuel ai b b
  | ai_game_ai (b b' b'' : Board) (a : Action) :
      terminal b = Ok false → player b = ai →
      minimax order fuel b = Ok (Some a) → result b a = Ok b' →
      ai_game order fuel ai b' b'' → ai_game order fuel ai b b''
  | ai_game_opp (b b' b'' : Board) (a : Action) :
      terminal b = Ok false → player b ≠ ai →
      result b a = Ok b' →
      ai_game order fuel ai b' b'' → ai_game order fuel ai b b''.

(** The side [ai] is not worse off: the value of the position, from the
    side of [X], has not gone down when [ai] is [X] and not up when [ai]
    is [O]. *)
Definition not_worse (ai : Player) (v v' : Z) : Prop :=
  match ai with
  | X => v ≤ v'
  | O => v' ≤ v
  end.

(** * Properties *)

(** ** The result monad *)

Lemma bind_Ok {A B} (m : res A) (f : A → res B) (y : B) :
  m ≫= f = Ok y ↔ ∃ x, m = Ok x ∧ f x = Ok y.
Proof.
  destruct m; simpl; split; try (intros (x & Hx & _); discriminate);
    try discriminate.
  - intros H. eauto.
  - intros (x & [= ->] & H). exact H.
Qed.

(** ** Shape of well-formed boards *)

Lemma wf_shape (b : Board) :
  wf b →
  ∃ c00 c01 c02 c10 c11 c12 c20 c21 c22 : cell,
    b = [ [c00; c01; c02]; [c10; c11; c12]; [c20; c21; c22] ].
Proof.
  intros [Hlen Hrows].
  destruct b as [|r0 [|r1 [|r2 [|]]]]; try discriminate.
  apply Forall_cons in Hrows as [H0 Hrows].
  apply Forall_cons in Hrows as [H1 Hrows].
  apply Forall_cons in Hrows as [H2 _].
  destruct r0 as [|? [|? [|? [|]]]]; try discriminate.
  destruct r1 as [|? [|? [|? [|]]]]; try discriminate.
  destruct r2 as [|? [|? [|? [|]]]]; try discriminate.
  eauto 10.
Qed.

Lemma wf_initial_state : wf initial_state.
Proof. split; [reflexivity | repeat constructor]. Qed.

Lemma cell_at_wf (b : Board) (i j : nat) :
  wf b → (i < 3)%nat → (j < 3)%nat → ∃ c, cell_at b i j = Ok c.
Proof.
  intros Hwf Hi Hj.
  destruct (wf_shape b Hwf) as (c00&c01&c02&c10&c11&c12&c20&c21&c22&->).
  destruct i as [|[|[|]]]; try lia;
    (destruct j as [|[|[|]]]; try lia); simpl; eauto.
Qed.

Lemma line3_wf (b : Board) (p q r : nat * nat) :
  wf b → (p.1 < 3)%nat → (p.2 < 3)%nat → (q.1 < 3)%nat → (q.2 < 3)%nat →
  (r.1 < 3)%nat → (r.2 < 3)%nat → ∃ t, line3 b p q r = Ok t.
Proof.
  intros Hwf ? ? ? ? ? ?. unfold line3.
  destruct (cell_at_wf b p.1 p.2) as [x ->]; try done.
  destruct (cell_at_wf b q.1 q.2) as [y ->]; try done.
  destruct (cell_at_wf b r.1 r.2) as [z ->]; try done.
  simpl. destruct (cell_eqb x y); [destruct (cell_eqb y z)|]; eauto.
Qed.

Lemma check_line_wf (b : Board) (p q r : nat * nat) (k : res cell) :
  wf b → (p.1 < 3)%nat → (p.2 < 3)%nat → (q.1 < 3)%nat → (q.2 < 3)%nat →
  (r.1 < 3)%nat → (r.2 < 3)%nat → (∃ w, k = Ok w) →
  ∃ w, check_line b p q r k = Ok w.
Proof.
  intros Hwf ? ? ? ? ? ? Hk. unfold check_line.
  destruct (line3_wf b p q r) as [t ->]; try done.
  simpl. destruct t; [by apply cell_at_wf | done].
Qed.

Lemma winner_wf (b : Board) : wf b → ∃ w, winner b = Ok w.
Proof.
  intros Hwf. unfold winner. simpl.
  repeat (apply check_line_wf; simpl; try done; try lia).
  eauto.
Qed.

Lemma terminal_wf (b : Board) : wf b → ∃ t, terminal b = Ok t.
Proof.
  intros Hwf. unfold terminal. destruct (winner_wf b Hwf) as [w ->]. simpl.
  destruct (negb _); [eauto|]. destruct (board_full b); eauto.
Qed.

Lemma utility_wf (b : Board) :
  wf b → ∃ u, utility b = Ok u ∧ -1 ≤ u ≤ 1.
Proof.
  intros Hwf. unfold utility. destruct (winner_wf b Hwf) as [w ->]. simpl.
  destruct (cell_eqb w (Some X)); [eexists; split; [done | lia]|].
  destruct (cell_eqb w (Some O)); eexists; (split; [done | lia]).
Qed.

(** ** Legal actions *)

Lemma elem_of_row_actions (n : nat) (row : list cell) (a : Action) :
  a ∈ row_actions n row ↔
  ∃ m, a = (Z.of_nat n, Z.of_nat m) ∧ row !! m = Some EMPTY.
Proof.
  unfold row_actions. rewrite list_elem_of_omap. split.
  - intros (x & Hx & Hid).
    apply elem_of_lookup_imap in Hx as (m & c & -> & Hm).
    unfold cell_eqb in Hid. case_bool_decide; simplify_eq/=. eauto.
  - intros (m & -> & Hm). exists (Some (Z.of_nat n, Z.of_nat m)).
    split; [|done].
    apply elem_of_lookup_imap. exists m, EMPTY. split; [|done].
    unfold cell_eqb. by rewrite bool_decide_eq_true_2.
Qed.

Lemma elem_of_actions_list (b : Board) (a : Action) :
  a ∈ actions_list b ↔
  ∃ n m row, a = (Z.of_nat n, Z.of_nat m) ∧ b !! n = Some row ∧
             row !! m = Some EMPTY.
Proof.
  unfold actions_list. rewrite list_elem_of_In, in_concat. split.
  - intros (l & Hl & Ha). apply list_elem_of_In in Hl, Ha.
    apply elem_of_lookup_imap in Hl as (n & row & -> & Hn).
    apply elem_of_row_actions in Ha as (m & -> & Hm). eauto 10.
  - intros (n & m & row & -> & Hn & Hm). exists (row_actions n row).
    rewrite <- !list_elem_of_In. split.
    + apply elem_of_lookup_imap. eauto.
    + apply elem_of_row_actions. eauto.
Qed.

Lemma elem_of_actions (b : Board) (a : Action) :
  a ∈ actions b ↔
  ∃ n m row, a = (Z.of_nat n, Z.of_nat m) ∧ b !! n = Some row ∧
             row !! m = Some EMPTY.
Proof. unfold actions. by rewrite elem_of_list_to_set, elem_of_actions_list. Qed.

(** On a well-formed board the legal actions are the in-range positions
    of the empty cells. *)
Lemma elem_of_actions_wf (b : Board) (i j : Z) :
  wf b →
  (i, j) ∈ actions b ↔
  0 ≤ i < 3 ∧ 0 ≤ j < 3 ∧ cell_at b (Z.to_nat i) (Z.to_nat j) = Ok EMPTY.
Proof.
  intros Hwf. rewrite elem_of_actions. unfold cell_at. split.
  - intros (n & m & row & [= -> ->] & Hn & Hm).
    rewrite !Nat2Z.id, Hn, Hm.
    destruct Hwf as [Hlen Hrows].
    assert (n < 3)%nat by (rewrite <- Hlen; by eapply lookup_lt_Some).
    assert (length row = 3%nat) as Hrow.
    { eapply (proj1 (Forall_lookup _ _) Hrows); done. }
    assert (m < 3)%nat by (rewrite <- Hrow; by eapply lookup_lt_Some).
    repeat split; lia.
  - intros (Hi & Hj & Hc).
    exists (Z.to_nat i), (Z.to_nat j).
    destruct (b !! Z.to_nat i) as [row|] eqn:Hn; [|done].
    destruct (row !! Z.to_nat j) as [c|] eqn:Hm; [|done].
    exists row. rewrite !Z2Nat.id by lia. by simplify_eq.
Qed.

(** ** Applying an action *)

Lemma py_getitem_nat {A} (l : list A) (n : nat) (x : A) :
  l !! n = Some x → py_getitem l (Z.of_nat n) = Ok x.
Proof.
  intros Hn. unfold py_getitem. apply lookup_lt_Some in Hn as Hlt.
  rewrite (bool_decide_eq_false_2 (Z.of_nat n < 0)) by lia.
  rewrite bool_decide_eq_true_2 by lia.
  by rewrite Nat2Z.id, Hn.
Qed.

Lemma py_setitem_nat {A} (l : list A) (n : nat) (v : A) :
  (n < length l)%nat → py_setitem l (Z.of_nat n) v = Ok (<[n := v]> l).
Proof.
  intros Hlt. unfold py_setitem.
  rewrite (bool_decide_eq_false_2 (Z.of_nat n < 0)) by lia.
  rewrite bool_decide_eq_true_2 by lia.
  by rewrite Nat2Z.id.
Qed.

Lemma result_Ok (b : Board) (n m : nat) (row : list cell) :
  b !! n = Some row → row !! m = Some EMPTY →
  result b (Z.of_nat n, Z.of_nat m)
  = Ok (<[n := <[m := Some (player b)]> row]> b).
Proof.
  intros Hn Hm. unfold result.
  rewrite bool_decide_eq_true_2 by (apply elem_of_actions; eauto 10).
  rewrite (py_getitem_nat _ _ _ Hn). simpl.
  rewrite py_setitem_nat by (by eapply lookup_lt_Some). simpl.
  apply py_setitem_nat. by eapply lookup_lt_Some.
Qed.

Lemma result_legal (b : Board) (a : Action) :
  a ∈ actions b →
  ∃ n m row, a = (Z.of_nat n, Z.of_nat m) ∧ b !! n = Some row ∧
             row !! m = Some EMPTY ∧
             result b a = Ok (<[n := <[m := Some (player b)]> row]> b).
Proof.
  intros (n & m & row & -> & Hn & Hm)%elem_of_actions.
  exists n, m, row. eauto using result_Ok.
Qed.

Lemma result_illegal (b : Board) (a : Action) :
  a ∉ actions b → result b a = Raise InvalidAction.
Proof. intros Ha. unfold result. by rewrite bool_decide_eq_false_2. Qed.

Lemma result_Ok_inv (b b' : Board) (a : Action) :
  result b a = Ok b' → a ∈ actions b.
Proof.
  unfold result. case_bool_decide; [done | discriminate].
Qed.

(** ** Counting marks *)

Lemma count_app (c : cell) (l1 l2 : list cell) :
  count c (l1 ++ l2) = (count c l1 + count c l2)%nat.
Proof. induction l1 as [|d l1 IH]; simpl; [done | rewrite IH; lia]. Qed.

Lemma count_board_app (c : cell) (b1 b2 : Board) :
  count_board c (b1 ++ b2) = (count_board c b1 + count_board c b2)%nat.
Proof.
  unfold count_board. induction b1 as [|r b1 IH]; simpl; [done | rewrite IH; lia].
Qed.

Lemma count_insert (c d e : cell) (row : list cell) (m : nat) :
  row !! m = Some e →
  (count c (<[m := d]> row) + (if cell_eqb e c then 1 else 0)
   = count c row + (if cell_eqb d c then 1 else 0))%nat.
Proof.
  intros Hm. apply lookup_lt_Some in Hm as Hlt.
  rewrite insert_take_drop by done.
  assert (count c row
          = count c (take m row ++ e :: drop (S m) row)) as ->
    by (by rewrite take_drop_middle).
  rewrite !count_app. simpl. lia.
Qed.

Lemma count_board_insert (c : cell) (b : Board) (n : nat)
    (row row' : list cell) :
  b !! n = Some row →
  (count_board c (<[n := row']> b) + count c row
   = count_board c b + count c row')%nat.
Proof.
  intros Hn. apply lookup_lt_Some in Hn as Hlt.
  rewrite insert_take_drop by done.
  assert (count_board c b
          = count_board c (take n b ++ row :: drop (S n) b)) as ->
    by (by rewrite take_drop_middle).
  rewrite !count_board_app. simpl. lia.
Qed.

(** Placing mark [d] on an empty cell: the number of cells equal to [c]. *)
Lemma count_board_place (c d : cell) (b : Board) (n m : nat)
    (row : list cell) :
  b !! n = Some row → row !! m = Some EMPTY →
  (count_board c (<[n := <[m := d]> row]> b)
   + (if cell_eqb EMPTY c then 1 else 0)
   = count_board c b + (if cell_eqb d c then 1 else 0))%nat.
Proof.
  intros Hn Hm.
  pose proof (count_board_insert c b n row (<[m := d]> row) Hn).
  pose proof (count_insert c d EMPTY row m Hm). lia.
Qed.

Lemma result_wf (b b' : Board) (a : Action) :
  wf b → result b a = Ok b' → wf b'.
Proof.
  intros [Hlen Hrows] Hres.
  destruct (result_legal b a (result_Ok_inv _ _ _ Hres))
    as (n & m & row & -> & Hn & Hm & Hres').
  rewrite Hres' in Hres. injection Hres as <-. split.
  - by rewrite length_insert.
  - apply Forall_insert; [done|]. rewrite length_insert.
    eapply (proj1 (Forall_lookup _ _) Hrows); done.
Qed.

(** Every successful [result] fills exactly one empty cell. *)
Lemma result_empties (b b' : Board) (a : Action) :
  result b a = Ok b' → S (empties b') = empties b.
Proof.
  intros Hres.
  destruct (result_legal b a (result_Ok_inv _ _ _ Hres))
    as (n & m & row & -> & Hn & Hm & Hres').
  rewrite Hres' in Hres. injection Hres as <-. unfold empties.
  pose proof (count_board_place EMPTY (Some (player b)) b n m row Hn Hm)
    as H.
  unfold cell_eqb in H.
  rewrite (bool_decide_eq_true_2 (EMPTY = EMPTY)) in H by done.
  rewrite (bool_decide_eq_false_2 (Some (player b) = EMPTY)) in H by done.
  lia.
Qed.

Lemma result_count (b b' : Board) (a : Action) (p : Player) :
  result b a = Ok b' →
  count_board (Some p) b'
  = (count_board (Some p) b + (if bool_decide (player b = p) then 1 else 0))%nat.
Proof.
  intros Hres.
  destruct (result_legal b a (result_Ok_inv _ _ _ Hres))
    as (n & m & row & -> & Hn & Hm & Hres').
  rewrite Hres' in Hres. injection Hres as <-.
  pose proof (count_board_place (Some p) (Some (player b)) b n m row Hn Hm)
    as H.
  unfold cell_eqb in H.
  rewrite (bool_decide_eq_false_2 (EMPTY = Some p)) in H by done.
  destruct (decide (player b = p)) as [Heq|Hne].
  - rewrite (bool_decide_eq_true_2 (player b = p)) by done.
    rewrite (bool_decide_eq_true_2 (Some (player b) = Some p)) in H
      by congruence.
    lia.
  - rewrite (bool_decide_eq_false_2 (player b = p)) by done.
    rewrite (bool_decide_eq_false_2 (Some (player b) = Some p)) in H
      by congruence.
    lia.
Qed.

(** ** Empty cells, full boards and legal actions *)

Lemma count_EMPTY_zero (row : list cell) :
  count EMPTY row = 0%nat ↔
  forallb (fun c => negb (cell_eqb c EMPTY)) row = true.
Proof.
  induction row as [|c row IH]; simpl; [done|].
  destruct (cell_eqb c EMPTY); simpl; [split; [lia | discriminate]|].
  exact IH.
Qed.

Lemma board_full_empties (b : Board) :
  board_full b = true ↔ empties b = 0%nat.
Proof.
  unfold board_full, empties, count_board.
  induction b as [|row b IH]; simpl; [done|].
  rewrite forallb_app, andb_true_iff, IH, <- count_EMPTY_zero. lia.
Qed.

Lemma count_EMPTY_lookup (row : list cell) :
  (0 < count EMPTY row)%nat → ∃ m, row !! m = Some EMPTY.
Proof.
  induction row as [|c row IH]; simpl; [lia|].
  unfold cell_eqb. case_bool_decide as Hc.
  - intros _. exists 0%nat. by rewrite Hc.
  - intros H. destruct IH as [m Hm]; [lia|]. by exists (S m).
Qed.

Lemma empties_lookup (b : Board) :
  (0 < empties b)%nat →
  ∃ n m row, b !! n = Some row ∧ row !! m = Some EMPTY.
Proof.
  unfold empties, count_board.
  induction b as [|row b IH]; simpl; [lia|].
  destruct (count EMPTY row) as [|k] eqn:Hk.
  - intros H. destruct IH as (n & m & r & Hn & Hm); [lia|].
    by exists (S n), m, r.
  - intros _. destruct (count_EMPTY_lookup row) as [m Hm]; [lia|].
    by exists 0%nat, m, row.
Qed.

Lemma actions_nonempty (b : Board) :
  (0 < empties b)%nat → ∃ a, a ∈ actions b.
Proof.
  intros (n & m & row & Hn & Hm)%empties_lookup.
  exists (Z.of_nat n, Z.of_nat m). apply elem_of_actions. eauto 10.
Qed.

Lemma empties_wf_le (b : Board) : wf b → (empties b ≤ 9)%nat.
Proof.
  intros Hwf.
  destruct (wf_shape b Hwf) as (c00&c01&c02&c10&c11&c12&c20&c21&c22&->).
  unfold empties, count_board. simpl.
  repeat match goal with
         | |- context [cell_eqb ?c ?d] => destruct (cell_eqb c d)
         end; lia.
Qed.

(** A board that is not terminal has an empty cell. *)
Lemma terminal_false_empties (b : Board) :
  terminal b = Ok false → (0 < empties b)%nat.
Proof.
  unfold terminal. intros (w & Hw & H)%bind_Ok.
  destruct (negb _); [discriminate|].
  destruct (board_full b) eqn:Hfull; [discriminate|].
  destruct (empties b) eqn:He; [|lia].
  apply board_full_empties in He. congruence.
Qed.

(** ** The loops of the search *)

Ltac ext_cases :=
  repeat match goal with
         | v : ext |- _ => destruct v
         end;
  unfold ext_ltb, ext_gtb, ext_eqb in *; simpl in *;
  repeat case_bool_decide; simplify_eq/=; try done; try lia.

Lemma children_ok_cons rec b val a todo :
  children_ok rec b val (a :: todo) →
  (∃ b' x, result b a = Ok b' ∧ rec b' = Ok (Fin (val a), x) ∧
           -1 ≤ val a ≤ 1) ∧
  children_ok rec b val todo.
Proof.
  intros H. split; [apply H; left|].
  intros a' Ha'. apply H. by right.
Qed.

Lemma max_loop_spec rec b val todo v best :
  children_ok rec b val todo →
  ext_gtb v (Fin (1)) = false →
  ∃ v' best',
    max_loop rec b todo v best = Ok (v', best') ∧
    ext_gtb v v' = false ∧ ext_gtb v' (Fin (1)) = false ∧
    (∀ a, a ∈ todo → ext_gtb (Fin (val a)) v' = false) ∧
    ((v' = v ∧ best' = best) ∨
     (∃ a, a ∈ todo ∧ best' = Some a ∧ v' = Fin (val a))).
Proof.
  revert v best. induction todo as [|a todo IH]; intros v best Hch Hv.
  - exists v, best. simpl. split_and!.
    + done.
    + by ext_cases.
    + done.
    + intros a Ha. by apply elem_of_nil in Ha.
    + by left.
  - apply children_ok_cons in Hch as [(b' & x & Hres & Hrec & Hval) Hch].
    simpl. rewrite Hres. simpl. rewrite Hrec. simpl.
    destruct (ext_gtb (Fin (val a)) v) eqn:Hgt; simpl.
    + destruct (ext_eqb (Fin (val a)) (Fin (1))) eqn:Heq.
      * exists (Fin (val a)), (Some a). split_and!.
        -- done.
        -- by ext_cases.
        -- by ext_cases.
        -- intros a' [->|Ha']%elem_of_cons; [by ext_cases|].
           destruct (Hch a' Ha') as (? & ? & _ & _ & ?). by ext_cases.
        -- right. exists a. split; [left|done].
      * destruct (IH (Fin (val a)) (Some a) Hch) as
          (v' & best' & Hloop & Hle & Hhi & Hub & Hatt); [by ext_cases|].
        exists v', best'. split_and!.
        -- done.
        -- by ext_cases.
        -- done.
        -- intros a' [->|Ha']%elem_of_cons; [done | by apply Hub].
        -- right. destruct Hatt as [[-> ->]|(a' & Ha' & -> & ->)].
           ++ exists a. split; [left|done].
           ++ exists a'. split; [by right|done].
    + destruct (ext_eqb v (Fin (1))) eqn:Heq.
      * exists v, best. split_and!.
        -- done.
        -- by ext_cases.
        -- done.
        -- intros a' [->|Ha']%elem_of_cons; [done|].
           destruct (Hch a' Ha') as (? & ? & _ & _ & ?). by ext_cases.
        -- by left.
      * destruct (IH v best Hch Hv) as
          (v' & best' & Hloop & Hle & Hhi & Hub & Hatt).
        exists v', best'. split_and!.
        -- done.
        -- done.
        -- done.
        -- intros a' [->|Ha']%elem_of_cons; [by ext_cases | by apply Hub].
        -- destruct Hatt as [[-> ->]|(a' & Ha' & -> & ->)]; [by left|].
           right. exists a'. split; [by right|done].
Qed.

Lemma min_loop_spec rec b val todo v best :
  children_ok rec b val todo →
  ext_ltb v (Fin (-1)) = false →
  ∃ v' best',
    min_loop rec b todo v best = Ok (v', best') ∧
    ext_ltb v v' = false ∧ ext_ltb v' (Fin (-1)) = false ∧
    (∀ a, a ∈ todo → ext_ltb (Fin (val a)) v' = false) ∧
    ((v' = v ∧ best' = best) ∨
     (∃ a, a ∈ todo ∧ best' = Some a ∧ v' = Fin (val a))).
Proof.
  revert v best. induction todo as [|a todo IH]; intros v best Hch Hv.
  - exists v, best. simpl. split_and!.
    + done.
    + by ext_cases.
    + done.
    + intros a Ha. by apply elem_of_nil in Ha.
    + by left.
  - apply children_ok_cons in Hch as [(b' & x & Hres & Hrec & Hval) Hch].
    simpl. rewrite Hres. simpl. rewrite Hrec. simpl.
    destruct (ext_ltb (Fin (val a)) v) eqn:Hgt; simpl.
    + destruct (ext_eqb (Fin (val a)) (Fin (-1))) eqn:Heq.
      * exists (Fin (val a)), (Some a). split_and!.
        -- done.
        -- by ext_cases.
        -- by ext_cases.
        -- intros a' [->|Ha']%elem_of_cons; [by ext_cases|].
           destruct (Hch a' Ha') as (? & ? & _ & _ & ?). by ext_cases.
        -- right. exists a. split; [left|done].
      * destruct (IH (Fin (val a)) (Some a) Hch) as
          (v' & best' & Hloop & Hle & Hhi & Hub & Hatt); [by ext_cases|].
        exists v', best'. split_and!.
        -- done.
        -- by ext_cases.
        -- done.
        -- intros a' [->|Ha']%elem_of_cons; [done | by apply Hub].
        -- right. destruct Hatt as [[-> ->]|(a' & Ha' & -> & ->)].
           ++ exists a. split; [left|done].
           ++ exists a'. split; [by right|done].
    + destruct (ext_eqb v (Fin (-1))) eqn:Heq.
      * exists v, best. split_and!.
        -- done.
        -- by ext_cases.
        -- done.
        -- intros a' [->|Ha']%elem_of_cons; [done|].
           destruct (Hch a' Ha') as (? & ? & _ & _ & ?). by ext_cases.
        -- by left.
      * destruct (IH v best Hch Hv) as
          (v' & best' & Hloop & Hle & Hhi & Hub & Hatt).
        exists v', best'. split_and!.
        -- done.
        -- done.
        -- done.
        -- intros a' [->|Ha']%elem_of_cons; [by ext_cases | by apply Hub].
        -- destruct Hatt as [[-> ->]|(a' & Ha' & -> & ->)]; [by left|].
           right. exists a'. split; [by right|done].
Qed.

Lemma max_loop_top rec b val todo :
  children_ok rec b val todo → todo ≠ [] →
  ∃ a, a ∈ todo ∧
       max_loop rec b todo NegInf None = Ok (Fin (val a), Some a) ∧
       ∀ a', a' ∈ todo → val a' ≤ val a.
Proof.
  intros Hch Hne.
  destruct (max_loop_spec rec b val todo NegInf None Hch eq_refl)
    as (v' & best' & Hloop & _ & _ & Hub & Hatt).
  destruct Hatt as [[-> ->]|(a & Ha & -> & ->)].
  - destruct todo as [|a todo]; [done|].
    specialize (Hub a (list_elem_of_here _ _)). discriminate.
  - exists a. split_and!; [done..|].
    intros a' Ha'. specialize (Hub a' Ha'). by ext_cases.
Qed.

Lemma min_loop_top rec b val todo :
  children_ok rec b val todo → todo ≠ [] →
  ∃ a, a ∈ todo ∧
       min_loop rec b todo PosInf None = Ok (Fin (val a), Some a) ∧
       ∀ a', a' ∈ todo → val a ≤ val a'.
Proof.
  intros Hch Hne.
  destruct (min_loop_spec rec b val todo PosInf None Hch eq_refl)
    as (v' & best' & Hloop & _ & _ & Hub & Hatt).
  destruct Hatt as [[-> ->]|(a & Ha & -> & ->)].
  - destruct todo as [|a todo]; [done|].
    specialize (Hub a (list_elem_of_here _ _)). discriminate.
  - exists a. split_and!; [done..|].
    intros a' Ha'. specialize (Hub a' Ha'). by ext_cases.
Qed.

(** ** Enumeration orders *)

Lemma order_ok_elements : order_ok elements.
Proof. by intros s. Qed.

Lemma elem_of_order (order : gset Action → list Action) (s : gset Action) (a : Action) :
  order_ok order → a ∈ order s ↔ a ∈ s.
Proof. intros Hok. by rewrite (Hok s), elem_of_elements. Qed.

Lemma order_nonempty (order : gset Action → list Action) (s : gset Action) (a : Action) :
  order_ok order → a ∈ s → order s ≠ [].
Proof.
  intros Hok Ha Hnil. apply (elem_of_order order s a Hok) in Ha.
  rewrite Hnil in Ha. by apply elem_of_nil in Ha.
Qed.

(** ** The search: value, action and independence of the order *)

Lemma max_value_terminal order f b u :
  terminal b = Ok true → utility b = Ok u →
  max_value order (S f) b = Ok (Fin u, None).
Proof. intros Ht Hu. simpl. rewrite Ht. simpl. by rewrite Hu. Qed.

Lemma min_value_terminal order f b u :
  terminal b = Ok true → utility b = Ok u →
  min_value order (S f) b = Ok (Fin u, None).
Proof. intros Ht Hu. simpl. rewrite Ht. simpl. by rewrite Hu. Qed.

Lemma max_value_step order f b :
  terminal b = Ok false →
  max_value order (S f) b
  = max_loop (min_value order f) b (order (actions b)) NegInf None.
Proof. intros Ht. simpl. by rewrite Ht. Qed.

Lemma min_value_step order f b :
  terminal b = Ok false →
  min_value order (S f) b
  = min_loop (max_value order f) b (order (actions b)) PosInf None.
Proof. intros Ht. simpl. by rewrite Ht. Qed.

(** The children of [b] under a run [rec] that agrees with the reference
    run [ref] on every board with one empty cell less. *)
Lemma children_ok_ref rec ref b todo :
  (∀ a, a ∈ todo → a ∈ actions b) →
  (∀ a b', result b a = Ok b' →
     ∃ v x x0, rec b' = Ok (Fin v, x) ∧ ref b' = Ok (Fin v, x0) ∧
               -1 ≤ v ≤ 1) →
  children_ok rec b (child_val ref b) todo.
Proof.
  intros Hin Hrec a Ha.
  destruct (result_legal b a (Hin a Ha)) as (n & m & row & _ & _ & _ & Hres).
  destruct (Hrec a _ Hres) as (v & x & x0 & Hr & Hr0 & Hv).
  eexists _, x. split; [exact Hres|].
  unfold child_val. rewrite Hres, Hr0. simpl. done.
Qed.

Lemma search_spec (k : nat) :
  ∀ b, wf b → (empties b < k)%nat →
  ∀ order, order_ok order → ∀ f, (empties b < f)%nat →
    node_ok (max_value order f) max_ref min_ref b ∧
    node_ok (min_value order f) min_ref max_ref b.
Proof.
  induction k as [|k IH]; intros b Hwf Hk order Hok f Hf; [lia|].
  destruct f as [|f]; [lia|].
  destruct (terminal_wf b Hwf) as [[|] Ht].
  { (* terminal board *)
    destruct (utility_wf b Hwf) as (u & Hu & Hbound).
    split; exists u, None, None; unfold max_ref, min_ref;
      (split_and!;
        [ first [by apply max_value_terminal | by apply min_value_terminal]
        | first [by apply max_value_terminal | by apply min_value_terminal]
        | lia | lia | done | rewrite Ht; discriminate ]). }
  (* a board with an empty cell *)
  pose proof (terminal_false_empties b Ht) as Hpos.
  destruct (actions_nonempty b Hpos) as [a1 Ha1].
  assert (∀ a b', result b a = Ok b' →
            wf b' ∧ S (empties b') = empties b) as Hchild.
  { intros a b' Hres. split; [by eapply result_wf | by eapply result_empties]. }
  assert (∀ order', order_ok order' → ∀ f', (empties b ≤ f')%nat →
            children_ok (min_value order' f') b (child_val min_ref b)
              (order' (actions b)) ∧
            children_ok (max_value order' f') b (child_val max_ref b)
              (order' (actions b))) as Hch.
  { intros order' Hok' f' Hf'.
    split; apply children_ok_ref;
      try (intros a Ha; by apply (elem_of_order order' _ _ Hok'));
      intros a b' Hres; destruct (Hchild a b' Hres) as [Hwf' He'];
      destruct (IH b' Hwf' ltac:(lia) order' Hok' f' ltac:(lia))
        as [(v & x & x0 & H1 & H2 & H3 & _) (w & y & y0 & H4 & H5 & H6 & _)];
      eauto 10. }
  destruct (Hch order Hok f ltac:(lia)) as [Hmin Hmax].
  destruct (Hch elements order_ok_elements (empties b) ltac:(lia))
    as [Hmin0 Hmax0].
  pose proof (order_nonempty order _ _ Hok Ha1) as Hne.
  pose proof (order_nonempty elements _ _ order_ok_elements Ha1) as Hne0.
  split.
  - destruct (max_loop_top _ _ _ _ Hmin Hne) as (a & Ha & Hrun & Hub).
    destruct (max_loop_top _ _ _ _ Hmin0 Hne0) as (a0 & Ha0 & Hrun0 & Hub0).
    apply (elem_of_order order _ _ Hok) in Ha as Ha'.
    apply elem_of_elements in Ha0 as Ha0'.
    assert (child_val min_ref b a0 = child_val min_ref b a) as Heq.
    { apply Z.le_antisymm.
      - apply Hub. by apply (elem_of_order order _ _ Hok).
      - apply Hub0. by apply elem_of_elements. }
    exists (child_val min_ref b a), (Some a), (Some a0).
    unfold max_ref at 1.
    rewrite !max_value_step by done. rewrite Hrun, Hrun0, Heq.
    destruct (Hmin a Ha) as (b' & x & Hres & Hrec & Hval).
    split_and!; [done | done | lia | lia | rewrite Ht; discriminate |].
    intros _. exists a, b'.
    destruct (Hchild a b' Hres) as [Hwf' He'].
    destruct (IH b' Hwf' ltac:(lia) order Hok f ltac:(lia))
      as [_ (w & y & y0 & H4 & H5 & _)].
    exists y0. split_and!; [done | done |].
    rewrite Hrec in H4. by simplify_eq.
  - destruct (min_loop_top _ _ _ _ Hmax Hne) as (a & Ha & Hrun & Hub).
    destruct (min_loop_top _ _ _ _ Hmax0 Hne0) as (a0 & Ha0 & Hrun0 & Hub0).
    apply (elem_of_order order _ _ Hok) in Ha as Ha'.
    apply elem_of_elements in Ha0 as Ha0'.
    assert (child_val max_ref b a0 = child_val max_ref b a) as Heq.
    { apply Z.le_antisymm.
      - apply Hub0. by apply elem_of_elements.
      - apply Hub. by apply (elem_of_order order _ _ Hok). }
    exists (child_val max_ref b a), (Some a), (Some a0).
    unfold min_ref at 1.
    rewrite !min_value_step by done. rewrite Hrun, Hrun0, Heq.
    destruct (Hmax a Ha) as (b' & x & Hres & Hrec & Hval).
    split_and!; [done | done | lia | lia | rewrite Ht; discriminate |].
    intros _. exists a, b'.
    destruct (Hchild a b' Hres) as [Hwf' He'].
    destruct (IH b' Hwf' ltac:(lia) order Hok f ltac:(lia))
      as [(w & y & y0 & H4 & H5 & _) _].
    exists y0. split_and!; [done | done |].
    rewrite Hrec in H4. by simplify_eq.
Qed.

Lemma max_value_ok order f b :
  wf b → order_ok order → (empties b < f)%nat →
  node_ok (max_value order f) max_ref min_ref b.
Proof.
  intros Hwf Hok Hf.
  by apply (search_spec (S (empties b)) b Hwf ltac:(lia) order Hok f Hf).
Qed.

Lemma min_value_ok order f b :
  wf b → order_ok order → (empties b < f)%nat →
  node_ok (min_value order f) min_ref max_ref b.
Proof.
  intros Hwf Hok Hf.
  by apply (search_spec (S (empties b)) b Hwf ltac:(lia) order Hok f Hf).
Qed.

(** ** Whose turn it is *)

Lemma balanced_initial_state : balanced initial_state.
Proof. by left. Qed.

Lemma player_balanced (b : Board) :
  balanced b →
  (player b = X ↔ count_board (Some X) b = count_board (Some O) b).
Proof.
  intros Hbal. unfold player. case_bool_decide; split; try done.
  - intros _. destruct Hbal; lia.
  - intros ?. lia.
Qed.

Lemma result_player_flip (b b' : Board) (a : Action) :
  balanced b → result b a = Ok b' →
  balanced b' ∧ player b' = opponent (player b).
Proof.
  intros Hbal Hres.
  pose proof (result_count b b' a X Hres) as HX.
  pose proof (result_count b b' a O Hres) as HO.
  pose proof (player_balanced b Hbal) as Hp.
  destruct (player b) eqn:Hpl.
  - rewrite bool_decide_eq_true_2 in HX by done.
    rewrite bool_decide_eq_false_2 in HO by done.
    assert (count_board (Some X) b = count_board (Some O) b) by by apply Hp.
    split; [right; lia|].
    unfold player. rewrite bool_decide_eq_false_2; [done | lia].
  - rewrite bool_decide_eq_false_2 in HX by done.
    rewrite bool_decide_eq_true_2 in HO by done.
    assert (count_board (Some X) b ≠ count_board (Some O) b)
      by (intros ?%Hp; done).
    split; [left; destruct Hbal; lia|].
    unfold player. rewrite bool_decide_eq_true_2; [done|].
    destruct Hbal; lia.
Qed.

Lemma play_player (acts : list Action) :
  ∀ b0 b, balanced b0 → play b0 acts = Ok b →
    balanced b ∧
    player b = (if Nat.even (length acts) then player b0
                else opponent (player b0)).
Proof.
  induction acts as [|a acts IH]; intros b0 b Hbal Hplay.
  - injection Hplay as <-. done.
  - simpl in Hplay. apply bind_Ok in Hplay as (b1 & Hres & Hplay).
    destruct (result_player_flip b0 b1 a Hbal Hres) as [Hbal1 Hp1].
    destruct (IH b1 b Hbal1 Hplay) as [Hbalb Hpb].
    split; [done|]. rewrite Hpb, Hp1.
    change (length (a :: acts)) with (S (length acts)).
    rewrite Nat.even_succ, <- Nat.negb_even.
    destruct (Nat.even (length acts)), (player b0); done.
Qed.

(** ** The chosen move *)

Lemma minimax_terminal order f b :
  terminal b = Ok true → minimax order f b = Ok None.
Proof. intros Ht. unfold minimax. by rewrite Ht. Qed.

Lemma game_value_terminal (b : Board) :
  wf b → terminal b = Ok true → utility b = Ok (game_value b).
Proof.
  intros Hwf Ht. unfold game_value. case_bool_decide.
  - destruct (max_value_ok elements (S (empties b)) b Hwf order_ok_elements
                ltac:(lia)) as (v & a & a0 & _ & Href & _ & Hterm & _).
    rewrite Href. simpl. by apply Hterm.
  - destruct (min_value_ok elements (S (empties b)) b Hwf order_ok_elements
                ltac:(lia)) as (v & a & a0 & _ & Href & _ & Hterm & _).
    rewrite Href. simpl. by apply Hterm.
Qed.

Lemma minimax_move order f b :
  wf b → order_ok order → (empties b < f)%nat → terminal b = Ok false →
  ∃ x b', minimax order f b = Ok (Some x) ∧ result b x = Ok b' ∧
          (balanced b → game_value b' = game_value b).
Proof.
  intros Hwf Hok Hf Ht. unfold minimax, game_value. rewrite Ht. simpl.
  case_bool_decide as Hp.
  - destruct (max_value_ok order f b Hwf Hok Hf)
      as (v & a & a0 & Hrun & Href & _ & _ & Hmove).
    destruct (Hmove Ht) as (x & b' & a' & -> & Hres & Hchild).
    exists x, b'. rewrite Hrun. split_and!; [done | done |].
    intros Hbal. destruct (result_player_flip b b' x Hbal Hres) as [_ Hp'].
    rewrite Hp in Hp'. rewrite bool_decide_eq_false_2 by (by rewrite Hp').
    by rewrite Hchild, Href.
  - destruct (min_value_ok order f b Hwf Hok Hf)
      as (v & a & a0 & Hrun & Href & _ & _ & Hmove).
    destruct (Hmove Ht) as (x & b' & a' & -> & Hres & Hchild).
    exists x, b'. rewrite Hrun. split_and!; [done | done |].
    intros Hbal. destruct (result_player_flip b b' x Hbal Hres) as [_ Hp'].
    assert (player b = O) as HpO by (by destruct (player b)).
    rewrite HpO in Hp'. rewrite bool_decide_eq_true_2 by done.
    by rewrite Hchild, Href.
Qed.

(** Self-play keeps the value of the position and ends on a terminal
    board with that utility. *)
Lemma self_play_value order fuel (steps : nat) :
  order_ok order →
  ∀ b, wf b → balanced b → (empties b < steps)%nat →
       (empties b < fuel)%nat →
  ∃ b', self_play order steps fuel b = Ok b' ∧ wf b' ∧
        terminal b' = Ok true ∧ utility b' = Ok (game_value b).
Proof.
  intros Hok. induction steps as [|steps IH]; intros b Hwf Hbal Hs Hf; [lia|].
  simpl. destruct (terminal_wf b Hwf) as [[|] Ht].
  - rewrite (minimax_terminal _ _ _ Ht). simpl.
    exists b. split_and!; [done | done | done |].
    by apply game_value_terminal.
  - destruct (minimax_move order fuel b Hwf Hok Hf Ht)
      as (x & b' & -> & Hres & Hval).
    simpl. rewrite Hres. simpl.
    pose proof (result_empties b b' x Hres) as He.
    destruct (IH b') as (b'' & Hplay & Hwf'' & Ht'' & Hu'').
    + by eapply result_wf.
    + by eapply result_player_flip.
    + lia.
    + lia.
    + exists b''. rewrite <- (Hval Hbal). done.
Qed.

(** ** Full boards *)

Lemma board_full_Forall (b : Board) :
  board_full b = true ↔ Forall (Forall (λ c, c ≠ EMPTY)) b.
Proof.
  unfold board_full. rewrite forallb_forall. split.
  - intros H. apply Forall_forall. intros row Hrow.
    apply Forall_forall. intros c Hc.
    assert (In c (concat b)) as Hin.
    { apply in_concat. exists row. by rewrite <- !list_elem_of_In. }
    specialize (H c Hin). unfold cell_eqb in H.
    by case_bool_decide.
  - intros H c (row & Hrow & Hc)%in_concat.
    apply list_elem_of_In in Hrow, Hc.
    rewrite Forall_forall in H. specialize (H row Hrow).
    rewrite Forall_forall in H. specialize (H c Hc).
    unfold cell_eqb. by rewrite bool_decide_eq_false_2.
Qed.

(** ** Values of particular positions *)

Lemma game_value_initial_state : game_value initial_state = 0.
Proof. vm_compute. reflexivity. Qed.

Lemma max_ref_board2 : max_ref board2 = Ok (Fin 1, Some (0, 2)).
Proof. vm_compute. reflexivity. Qed.

(** On [board2] only the move [(0, 2)] leads to a child of value [1]. *)
Lemma board2_winning_move (x : Action) (b' : Board) (a' : option Action) :
  result board2 x = Ok b' → min_ref b' = Ok (Fin 1, a') → x = (0, 2).
Proof.
  intros Hres Hchild.
  pose proof (result_Ok_inv _ _ _ Hres) as Hx.
  apply elem_of_elements in Hx.
  let l := eval vm_compute in (elements (actions board2)) in
  change (x ∈ l) in Hx.
  rewrite !elem_of_cons, elem_of_nil in Hx.
  destruct_or!; try done; subst x;
    vm_compute in Hres; injection Hres as <-;
    vm_compute in Hchild; congruence.
Qed.

(** ** The store *)

Lemma St_bind_Ok {A B} (m : St A) (f : A → St B) (h h' : heap) (a : A) :
  m h = (h', Ok a) → (m ≫= f) h = f a h'.
Proof. intros Hm. unfold mbind, St_bind. by rewrite Hm. Qed.

Lemma load_row_ok (h : heap) (r : loc) (cs : list cell) :
  h !! r = Some (ORow cs) → load_row r h = (h, Ok cs).
Proof. intros Hr. unfold load_row. by rewrite Hr. Qed.

Lemma load_outer_ok (h : heap) (l : loc) (rs : list loc) :
  h !! l = Some (OBoard rs) → load_outer l h = (h, Ok rs).
Proof. intros Hl. unfold load_outer. by rewrite Hl. Qed.

Lemma alloc_fresh (h : heap) : h !! fresh (dom h) = None.
Proof. apply not_elem_of_dom. apply is_fresh. Qed.

Lemma load_rows_ok (h : heap) (rs : list loc) (b : Board) :
  Forall2 (λ r cs, h !! r = Some (ORow cs)) rs b →
  load_rows rs h = (h, Ok b).
Proof.
  induction 1 as [|r cs rs b Hr _ IH]; [done|].
  simpl. rewrite (St_bind_Ok _ _ _ _ _ (load_row_ok _ _ _ Hr)).
  by rewrite (St_bind_Ok _ _ _ _ _ IH).
Qed.

Lemma read_board_ok (h : heap) (l : loc) (b : Board) :
  is_board h l b → read_board l h = (h, Ok b).
Proof.
  intros (rs & Hl & _ & Hrows). unfold read_board.
  rewrite (St_bind_Ok _ _ _ _ _ (load_outer_ok _ _ _ Hl)).
  by apply load_rows_ok.
Qed.

Lemma rows_mono (h h' : heap) (rs : list loc) (b : Board) :
  h ⊆ h' →
  Forall2 (λ r cs, h !! r = Some (ORow cs)) rs b →
  Forall2 (λ r cs, h' !! r = Some (ORow cs)) rs b.
Proof.
  intros Hsub Hrows. eapply Forall2_impl; [exact Hrows|].
  intros r cs Hr. simpl in *. by eapply lookup_weaken.
Qed.

Lemma is_board_mono (h h' : heap) (l : loc) (b : Board) :
  h ⊆ h' → is_board h l b → is_board h' l b.
Proof.
  intros Hsub (rs & Hl & Hnd & Hrows). exists rs. split_and!.
  - by eapply lookup_weaken.
  - done.
  - by eapply rows_mono.
Qed.

Lemma copy_rows_spec (rs : list loc) :
  ∀ (b : Board) (memo : gmap loc loc) (h : heap),
    Forall2 (λ r cs, h !! r = Some (ORow cs)) rs b →
    NoDup rs → (∀ r, r ∈ rs → memo !! r = None) →
    ∃ h' rs',
      copy_rows memo rs h = (h', Ok rs') ∧ h ⊆ h' ∧
      Forall2 (λ r cs, h' !! r = Some (ORow cs)) rs' b ∧
      NoDup rs' ∧ (∀ r', r' ∈ rs' → h !! r' = None).
Proof.
  induction rs as [|r rs IH]; intros b memo h Hrows Hnd Hmemo.
  - apply Forall2_nil_inv_l in Hrows as ->.
    exists h, []. split_and!;
      [done | done | constructor | constructor |].
    intros r' Hr'. by apply elem_of_nil in Hr'.
  - apply Forall2_cons_inv_l in Hrows as (cs & b' & Hr & Hrows & ->).
    apply NoDup_cons in Hnd as [Hnotin Hnd].
    simpl. rewrite (Hmemo r) by left.
    rewrite (St_bind_Ok _ _ _ _ _ (load_row_ok _ _ _ Hr)).
    set (r' := fresh (dom h)). set (h1 := <[r' := ORow cs]> h).
    assert (h !! r' = None) as Hfresh by apply alloc_fresh.
    assert (h ⊆ h1) as Hsub1 by (by apply insert_subseteq).
    assert (alloc (ORow cs) h = (h1, Ok r')) as Halloc by done.
    rewrite (St_bind_Ok _ _ _ _ _ Halloc).
    destruct (IH b' (<[r := r']> memo) h1) as
      (h2 & rs2 & Hcopy & Hsub2 & Hrows2 & Hnd2 & Hfresh2).
    + by eapply rows_mono.
    + done.
    + intros r0 Hr0. rewrite lookup_insert_ne; [|by intros ->].
      apply Hmemo. by right.
    + rewrite (St_bind_Ok _ _ _ _ _ Hcopy).
      exists h2, (r' :: rs2). split_and!.
      * done.
      * by transitivity h1.
      * constructor; [|done]. eapply lookup_weaken; [|done].
        apply lookup_insert_eq.
      * apply NoDup_cons. split; [|done]. intros Hin.
        specialize (Hfresh2 r' Hin). unfold h1 in Hfresh2.
        by rewrite lookup_insert_eq in Hfresh2.
      * intros r0 [->|Hr0]%elem_of_cons; [done|].
        specialize (Hfresh2 r0 Hr0).
        eapply lookup_weaken_None; done.
Qed.

Lemma rows_insert_ne (h : heap) (l : loc) (o : obj) (rs : list loc)
    (b : Board) :
  l ∉ rs →
  Forall2 (λ r cs, h !! r = Some (ORow cs)) rs b →
  Forall2 (λ r cs, <[l := o]> h !! r = Some (ORow cs)) rs b.
Proof.
  intros Hl Hrows. induction Hrows as [|r cs rs b Hr _ IH]; [constructor|].
  apply not_elem_of_cons in Hl as [Hne Hl].
  constructor; [|by apply IH]. by rewrite lookup_insert_ne.
Qed.

Lemma rows_update (h : heap) (rs : list loc) (b : Board) (n : nat)
    (r : loc) (row' : list cell) :
  NoDup rs → rs !! n = Some r →
  Forall2 (λ r cs, h !! r = Some (ORow cs)) rs b →
  Forall2 (λ r0 cs, <[r := ORow row']> h !! r0 = Some (ORow cs))
    rs (<[n := row']> b).
Proof.
  intros Hnd Hn Hrows. apply Forall2_lookup. intros i.
  pose proof (proj1 (Forall2_lookup _ _ _) Hrows i) as Hi.
  destruct (decide (i = n)) as [->|Hne].
  - rewrite Hn in Hi |- *.
    destruct (b !! n) as [cs|] eqn:Hb; [|by inversion Hi].
    rewrite list_lookup_insert_eq by (by eapply lookup_lt_Some).
    constructor. apply lookup_insert_eq.
  - rewrite list_lookup_insert_ne by done.
    destruct (rs !! i) as [x|] eqn:Hx; inversion Hi as [? cs Hxcs|];
      subst; constructor.
    rewrite lookup_insert_ne; [done|]. intros ->.
    apply Hne. by eapply NoDup_lookup.
Qed.

Lemma deepcopy_spec (h : heap) (l : loc) (b : Board) :
  is_board h l b →
  ∃ h' l' rs',
    deepcopy l h = (h', Ok l') ∧ h ⊆ h' ∧ h !! l' = None ∧
    h' !! l' = Some (OBoard rs') ∧ NoDup rs' ∧
    Forall2 (λ r cs, h' !! r = Some (ORow cs)) rs' b ∧
    (∀ r, r ∈ rs' → h !! r = None).
Proof.
  intros (rs & Hl & Hnd & Hrows). unfold deepcopy.
  rewrite (St_bind_Ok _ _ _ _ _ (load_outer_ok _ _ _ Hl)).
  set (new := fresh (dom h)). set (h0 := <[new := OBoard []]> h).
  assert (h !! new = None) as Hfresh by apply alloc_fresh.
  assert (h ⊆ h0) as Hsub0 by (by apply insert_subseteq).
  assert (alloc (OBoard []) h = (h0, Ok new)) as Halloc by done.
  rewrite (St_bind_Ok _ _ _ _ _ Halloc).
  destruct (copy_rows_spec rs b ∅ h0) as
    (h1 & rs1 & Hcopy & Hsub1 & Hrows1 & Hnd1 & Hfresh1).
  { by eapply rows_mono. }
  { done. }
  { intros r _. apply lookup_empty. }
  rewrite (St_bind_Ok _ _ _ _ _ Hcopy).
  assert (new ∉ rs1) as Hnew.
  { intros Hin. specialize (Hfresh1 new Hin). unfold h0 in Hfresh1.
    by rewrite lookup_insert_eq in Hfresh1. }
  exists (<[new := OBoard rs1]> h1), new, rs1. split_and!.
  - done.
  - apply insert_subseteq_r; [done|]. by transitivity h0.
  - done.
  - apply lookup_insert_eq.
  - done.
  - by apply rows_insert_ne.
  - intros r Hr. specialize (Hfresh1 r Hr).
    eapply lookup_weaken_None; done.
Qed.

Lemma result_st_ok (h : heap) (l : loc) (b : Board) (n m : nat)
    (row : list cell) :
  is_board h l b → b !! n = Some row → row !! m = Some EMPTY →
  ∃ h' l',
    result_st l (Z.of_nat n, Z.of_nat m) h = (h', Ok l') ∧
    h ⊆ h' ∧ h !! l' = None ∧
    is_board h' l' (<[n := <[m := Some (player b)]> row]> b).
Proof.
  intros Hb Hn Hm. unfold result_st.
  rewrite (St_bind_Ok _ _ _ _ _ (read_board_ok _ _ _ Hb)).
  rewrite bool_decide_eq_true_2 by (apply elem_of_actions; eauto 10).
  destruct (deepcopy_spec h l b Hb) as
    (h1 & l1 & rs1 & Hcopy & Hsub & Hfresh & Hl1 & Hnd & Hrows & Hfresh1).
  rewrite (St_bind_Ok _ _ _ _ _ Hcopy).
  rewrite (St_bind_Ok _ _ _ _ _
             (read_board_ok _ _ _ (is_board_mono _ _ _ _ Hsub Hb))).
  rewrite (St_bind_Ok _ _ _ _ _ (load_outer_ok _ _ _ Hl1)).
  destruct (Forall2_lookup_r _ _ _ _ _ Hrows Hn) as (r & Hr & Hrow).
  simpl in Hrow.
  assert (st_lift (py_getitem rs1 (Z.of_nat n)) h1 = (h1, Ok r)) as Hget.
  { unfold st_lift. by rewrite (py_getitem_nat _ _ _ Hr). }
  rewrite (St_bind_Ok _ _ _ _ _ Hget).
  rewrite (St_bind_Ok _ _ _ _ _ (load_row_ok _ _ _ Hrow)).
  assert (st_lift (py_setitem row (Z.of_nat m) (Some (player b))) h1
          = (h1, Ok (<[m := Some (player b)]> row))) as Hset.
  { unfold st_lift. rewrite py_setitem_nat; [done|].
    by eapply lookup_lt_Some. }
  rewrite (St_bind_Ok _ _ _ _ _ Hset).
  eexists _, l1. split; [reflexivity|].
  assert (r ∈ rs1) as Hin by (by eapply list_elem_of_lookup_2).
  split_and!.
  - apply insert_subseteq_r; [by apply Hfresh1 | done].
  - done.
  - exists rs1. split_and!.
    + rewrite lookup_insert_ne; [done|]. intros ->. congruence.
    + done.
    + by apply rows_update.
Qed.

Lemma result_st_illegal (h : heap) (l : loc) (b : Board) (a : Action) :
  is_board h l b → a ∉ actions b →
  result_st l a h = (h, Raise InvalidAction).
Proof.
  intros Hb Ha. unfold result_st.
  rewrite (St_bind_Ok _ _ _ _ _ (read_board_ok _ _ _ Hb)).
  by rewrite bool_decide_eq_false_2.
Qed.

Lemma cell_at_place (b : Board) (n m : nat) (row : list cell) (v : cell)
    (i j : nat) :
  b !! n = Some row → (m < length row)%nat →
  cell_at (<[n := <[m := v]> row]> b) i j
  = if bool_decide (i = n ∧ j = m) then Ok v else cell_at b i j.
Proof.
  intros Hn Hm. unfold cell_at.
  apply lookup_lt_Some in Hn as Hlt.
  destruct (decide (i = n)) as [->|Hi].
  - rewrite list_lookup_insert_eq by done. rewrite Hn.
    destruct (decide (j = m)) as [->|Hj].
    + rewrite list_lookup_insert_eq by done.
      by rewrite bool_decide_eq_true_2.
    + rewrite list_lookup_insert_ne by done.
      rewrite bool_decide_eq_false_2; [done|]. by intros [_ ?].
  - rewrite list_lookup_insert_ne by done.
    rewrite bool_decide_eq_false_2; [done|]. by intros [? _].
Qed.

(** [initial_state()] builds a board of distinct rows, and [result]
    keeps boards that way ([result_st_ok]). *)
Lemma initial_state_st_spec (h : heap) :
  ∃ h' l, initial_state_st h = (h', Ok l) ∧ h ⊆ h' ∧
          is_board h' l initial_state.
Proof.
  unfold initial_state_st.
  set (r0 := fresh (dom h)). set (h0 := <[r0 := ORow [EMPTY; EMPTY; EMPTY]]> h).
  set (r1 := fresh (dom h0)). set (h1 := <[r1 := ORow [EMPTY; EMPTY; EMPTY]]> h0).
  set (r2 := fresh (dom h1)). set (h2 := <[r2 := ORow [EMPTY; EMPTY; EMPTY]]> h1).
  set (l := fresh (dom h2)).
  assert (h !! r0 = None) as F0 by apply alloc_fresh.
  assert (h0 !! r1 = None) as F1 by apply alloc_fresh.
  assert (h1 !! r2 = None) as F2 by apply alloc_fresh.
  assert (h2 !! l = None) as F3 by apply alloc_fresh.
  assert (h0 !! r0 = Some (ORow [EMPTY; EMPTY; EMPTY])) as L0
    by apply lookup_insert_eq.
  assert (h1 !! r1 = Some (ORow [EMPTY; EMPTY; EMPTY])) as L1
    by apply lookup_insert_eq.
  assert (h2 !! r2 = Some (ORow [EMPTY; EMPTY; EMPTY])) as L2
    by apply lookup_insert_eq.
  assert (h ⊆ h0) as S0 by (by apply insert_subseteq).
  assert (h0 ⊆ h1) as S1 by (by apply insert_subseteq).
  assert (h1 ⊆ h2) as S2 by (by apply insert_subseteq).
  assert (h2 ⊆ <[l := OBoard [r0; r1; r2]]> h2) as S3
    by (by apply insert_subseteq).
  exists (<[l := OBoard [r0; r1; r2]]> h2), l. split_and!.
  - done.
  - by repeat (etrans; [eassumption|]).
  - exists [r0; r1; r2]. split_and!.
    + apply lookup_insert_eq.
    + assert (r0 ≠ r1) by (intros E; rewrite E in L0; congruence).
      assert (h1 !! r0 = Some (ORow [EMPTY; EMPTY; EMPTY])) as L0'
        by (by eapply lookup_weaken).
      assert (r0 ≠ r2) by (intros E; rewrite E in L0'; congruence).
      assert (r1 ≠ r2) by (intros E; rewrite E in L1; congruence).
      apply NoDup_cons. split.
      { rewrite !elem_of_cons, elem_of_nil. by intros [?|[?|[]]]. }
      apply NoDup_cons. split; [|apply NoDup_singleton].
      rewrite elem_of_cons, elem_of_nil. by intros [?|[]].
    + repeat constructor; eapply lookup_weaken; try eassumption;
        by repeat (etrans; [eassumption|]).
Qed.

(** * The claims *)

(** C1. Self-play from [initial_state], both sides moving with [minimax]
    and the board advanced with [result], ends on a terminal board of
    utility [0], whatever the order in which the sets of actions are
    walked. *)
Theorem self_play_draw order (steps fuel : nat) :
  order_ok order → (10 ≤ steps)%nat → (10 ≤ fuel)%nat →
  ∃ b, self_play order steps fuel initial_state = Ok b ∧
       terminal b = Ok true ∧ utility b = Ok 0.
Proof.
  intros Hok Hs Hf.
  destruct (self_play_value order fuel steps Hok initial_state
              wf_initial_state balanced_initial_state)
    as (b & Hplay & _ & Ht & Hu).
  - change (empties initial_state) with 9%nat. lia.
  - change (empties initial_state) with 9%nat. lia.
  - rewrite game_value_initial_state in Hu. by exists b.
Qed.

Lemma self_play_draw_witness :
  order_ok elements ∧ (10 ≤ 10)%nat ∧
  ∃ b, self_play elements 10 10 initial_state = Ok b ∧
       terminal b = Ok true ∧ utility b = Ok 0.
Proof.
  split; [intros s; reflexivity|]. split; [lia|].
  apply (self_play_draw elements 10 10); [intros s; reflexivity | lia | lia].
Defined.

(** C2. On [board2] it is [X] to move, [minimax] returns [(0, 2)] for
    every order of enumeration, and [max_value] on the board reached by
    that move returns [(1, None)]. *)
Theorem board2_best_action order (fuel : nat) :
  order_ok order → (empties board2 < fuel)%nat →
  player board2 = X ∧
  minimax order fuel board2 = Ok (Some (0, 2)) ∧
  ∃ b', result board2 (0, 2) = Ok b' ∧
        max_value order fuel b' = Ok (Fin 1, None).
Proof.
  intros Hok Hf. split; [reflexivity|].
  assert (wf board2) as Hwf by (split; [reflexivity | repeat constructor]).
  assert (terminal board2 = Ok false) as Ht by reflexivity.
  split.
  - unfold minimax. rewrite Ht.
    change (player board2) with X. simpl.
    destruct (max_value_ok order fuel board2 Hwf Hok Hf)
      as (v & a & a0 & Hrun & Href & _ & _ & Hmove).
    rewrite max_ref_board2 in Href. injection Href as <- _.
    destruct (Hmove Ht) as (x & b' & a' & -> & Hres & Hchild).
    rewrite Hrun. simpl. do 2 f_equal.
    by eapply board2_winning_move.
  - eexists. split; [reflexivity|].
    destruct fuel as [|fuel]; [lia|].
    by apply max_value_terminal.
Qed.

Lemma board2_best_action_witness :
  order_ok elements ∧ (empties board2 < 6)%nat ∧
  minimax elements 6 board2 = Ok (Some (0, 2)).
Proof.
  split; [intros s; reflexivity|]. split; [vm_compute; lia|].
  apply (board2_best_action elements 6);
    [intros s; reflexivity | vm_compute; lia].
Defined.

(** C3. On a well-formed board [minimax] returns [None] exactly when the
    board is terminal, and a legal action otherwise. *)
Theorem minimax_none_iff_terminal order (fuel : nat) (b : Board) :
  wf b → order_ok order → (empties b < fuel)%nat →
  (minimax order fuel b = Ok None ↔ terminal b = Ok true) ∧
  (terminal b = Ok false →
     ∃ a, minimax order fuel b = Ok (Some a) ∧ a ∈ actions b).
Proof.
  intros Hwf Hok Hf. destruct (terminal_wf b Hwf) as [[|] Ht].
  - split; [|rewrite Ht; discriminate].
    split; [done|]. intros _. by apply minimax_terminal.
  - destruct (minimax_move order fuel b Hwf Hok Hf Ht)
      as (x & b' & Hmm & Hres & _).
    split.
    + rewrite Hmm, Ht. split; discriminate.
    + intros _. exists x. split; [done|]. by eapply result_Ok_inv.
Qed.

Lemma minimax_none_iff_terminal_witness :
  wf initial_state ∧ order_ok elements ∧
  (empties initial_state < 10)%nat ∧
  ∃ a, minimax elements 10 initial_state = Ok (Some a) ∧
       a ∈ actions initial_state.
Proof.
  assert (wf initial_state) as Hwf
    by (split; [reflexivity | repeat constructor]).
  assert (order_ok elements) as Hok by (intros s; reflexivity).
  assert (empties initial_state < 10)%nat as Hf by (vm_compute; lia).
  split_and!; [done..|].
  apply (minimax_none_iff_terminal elements 10 initial_state Hwf Hok Hf).
  reflexivity.
Defined.

(** C4. On a well-formed board [result] raises the invalid-action
    exception exactly when the action is not in [actions], that is when
    an index is outside [0..2] or the cell is not empty; then no board is
    returned and the store is the one before the call. *)
Theorem result_invalid_iff (h : heap) (l : loc) (b : Board) (i j : Z) :
  wf b → is_board h l b →
  ((i, j) ∉ actions b ↔
     ¬ (0 ≤ i < 3 ∧ 0 ≤ j < 3 ∧
        cell_at b (Z.to_nat i) (Z.to_nat j) = Ok EMPTY)) ∧
  (result b (i, j) = Raise InvalidAction ↔ (i, j) ∉ actions b) ∧
  ((∃ h', result_st l (i, j) h = (h', Raise InvalidAction)) ↔
     (i, j) ∉ actions b) ∧
  ((i, j) ∉ actions b → result_st l (i, j) h = (h, Raise InvalidAction)) ∧
  ((i, j) ∈ actions b →
     ∃ b' h' l', result b (i, j) = Ok b' ∧
                 result_st l (i, j) h = (h', Ok l')).
Proof.
  intros Hwf Hb.
  assert ((i, j) ∈ actions b →
          ∃ b' h' l', result b (i, j) = Ok b' ∧
                      result_st l (i, j) h = (h', Ok l')) as Hok.
  { intros Ha.
    destruct (result_legal b _ Ha) as (n & m & row & Heq & Hn & Hm & Hres).
    destruct (result_st_ok h l b n m row Hb Hn Hm) as (h' & l' & Hst & _).
    injection Heq as -> ->. eauto 10. }
  split_and!.
  - by rewrite (elem_of_actions_wf b i j Hwf).
  - split; [|by apply result_illegal].
    intros Hraise Ha. destruct (Hok Ha) as (b' & _ & _ & Hres & _).
    congruence.
  - split; [|intros Ha; exists h; by eapply result_st_illegal].
    intros [h' Hraise] Ha. destruct (Hok Ha) as (_ & h'' & l' & _ & Hst).
    congruence.
  - by eapply result_st_illegal.
  - exact Hok.
Qed.

Lemma result_invalid_iff_witness :
  wf initial_state ∧ is_board heap0 4%positive initial_state ∧
  result_st 4%positive (3, 0) heap0 = (heap0, Raise InvalidAction).
Proof.
  assert (wf initial_state) as Hwf
    by (split; [reflexivity | repeat constructor]).
  assert (is_board heap0 4%positive initial_state) as Hb.
  { exists [1; 2; 3]%positive.
    split; [reflexivity|]. split; [|repeat constructor].
    apply (bool_decide_unpack _). vm_compute. reflexivity. }
  split_and!; [done..|].
  destruct (result_invalid_iff heap0 4%positive initial_state 3 0 Hwf Hb)
    as (Hin & _ & _ & Hst & _).
  apply Hst, Hin. lia.
Defined.

(** C5, amended. On a board whose rows are separate list objects
    ([is_board]), for an action in [actions], [result] returns a new
    board that has the mark of [player] in the named cell and the cells
    of the input everywhere else; the objects of the input board are
    left as they were. *)
Theorem result_frame (h : heap) (l : loc) (b : Board) (a : Action) :
  is_board h l b → a ∈ actions b →
  ∃ (n m : nat) b' h' l',
    a = (Z.of_nat n, Z.of_nat m) ∧
    result b a = Ok b' ∧
    (∀ i j, cell_at b' i j
            = if bool_decide (i = n ∧ j = m) then Ok (Some (player b))
              else cell_at b i j) ∧
    (wf b → wf b') ∧
    result_st l a h = (h', Ok l') ∧
    (∀ k o, h !! k = Some o → h' !! k = Some o) ∧
    h !! l' = None ∧
    is_board h' l b ∧ is_board h' l' b'.
Proof.
  intros Hb Ha.
  destruct (result_legal b a Ha) as (n & m & row & -> & Hn & Hm & Hres).
  destruct (result_st_ok h l b n m row Hb Hn Hm)
    as (h' & l' & Hst & Hsub & Hfresh & Hb').
  exists n, m, (<[n := <[m := Some (player b)]> row]> b), h', l'.
  split_and!; try done.
  - intros i j. apply cell_at_place; [done|]. by eapply lookup_lt_Some.
  - intros Hwf. by eapply result_wf.
  - intros k o Hk. by eapply lookup_weaken.
  - by eapply is_board_mono.
Qed.

Lemma result_frame_witness :
  is_board heap0 4%positive initial_state ∧
  (1, 1) ∈ actions initial_state ∧
  ∃ h' l', result_st 4%positive (1, 1) heap0 = (h', Ok l') ∧
           is_board h' 4%positive initial_state ∧
           is_board h' l'
             [ [None; None; None]; [None; Some X; None];
               [None; None; None] ].
Proof.
  assert (is_board heap0 4%positive initial_state) as Hb.
  { exists [1; 2; 3]%positive.
    split; [reflexivity|]. split; [|repeat constructor].
    apply (bool_decide_unpack _). vm_compute. reflexivity. }
  assert ((1, 1) ∈ actions initial_state) as Ha.
  { apply (bool_decide_unpack _). vm_compute. reflexivity. }
  split_and!; [done..|].
  destruct (result_frame heap0 4%positive initial_state (1, 1) Hb Ha)
    as (n & m & b' & h' & l' & _ & Hres & _ & _ & Hst & _ & _ & Hold & Hnew).
  exists h', l'. split_and!; [done | done |].
  vm_compute in Hres. injection Hres as <-. exact Hnew.
Defined.

(** What [result] does on the board of [heap_shared]: [copy.deepcopy]
    keeps the three rows one object, so the mark shows in every row of
    the new board; the input board is left as it was. *)
Lemma result_st_shared_rows_run :
  ∃ h' l',
    result_st 2%positive (0, 0) heap_shared = (h', Ok l') ∧
    read_board l' h'
    = (h', Ok [ [Some X; None; None]; [Some X; None; None];
                [Some X; None; None] ]) ∧
    read_board 2%positive h' = (h', Ok initial_state).
Proof. eexists _, _. split_and!; vm_compute; reflexivity. Qed.

(** C5 without the condition on the rows, for every well-formed board
    read from the store, fails on [heap_shared]: the new board differs
    from the input in the cells [(1, 0)] and [(2, 0)] too. *)
Lemma result_frame_shared_rows :
  ¬ (∀ (h : heap) (l : loc) (b : Board) (a : Action),
       wf b → read_board l h = (h, Ok b) → a ∈ actions b →
       ∃ h' l' b',
         result_st l a h = (h', Ok l') ∧
         read_board l' h' = (h', Ok b') ∧
         ∀ i j, (Z.of_nat i, Z.of_nat j) ≠ a →
                cell_at b' i j = cell_at b i j).
Proof.
  intros Hclaim.
  assert ((0, 0) ∈ actions initial_state) as Ha.
  { apply (bool_decide_unpack _). vm_compute. reflexivity. }
  destruct (Hclaim heap_shared 2%positive initial_state (0, 0)
              wf_initial_state eq_refl Ha)
    as (h' & l' & b' & Hst & Hread & Hcells).
  vm_compute in Hst. injection Hst as <- <-.
  vm_compute in Hread. injection Hread as <-.
  specialize (Hcells 1%nat 0%nat). vm_compute in Hcells.
  assert (Ok (Some X) = Ok (@None Player)) as Hbad; [|discriminate].
  apply Hcells. discriminate.
Qed.

(** C6. On a well-formed board [terminal] returns [True] exactly when
    [winner] returns a player or no cell is empty, and [False]
    otherwise. *)
Theorem terminal_iff (b : Board) :
  wf b →
  ∃ t w, terminal b = Ok t ∧ winner b = Ok w ∧
         (t = true ↔
            (∃ p, w = Some p) ∨ Forall (Forall (λ c, c ≠ EMPTY)) b).
Proof.
  intros Hwf. destruct (winner_wf b Hwf) as [w Hw].
  unfold terminal. rewrite Hw. simpl.
  destruct w as [p|]; simpl.
  - exists true, (Some p). split_and!; [done | done |].
    split; [|done]. intros _. left. by exists p.
  - destruct (board_full b) eqn:Hfull.
    + exists true, None. split_and!; [done | done |].
      split; [|done]. intros _. right. by apply board_full_Forall.
    + exists false, None. split_and!; [done | done |].
      split; [done|]. intros [[p Hp]|Hall]; [done|].
      apply board_full_Forall in Hall. congruence.
Qed.

Lemma terminal_iff_witness :
  wf board_draw ∧ winner board_draw = Ok None ∧
  terminal board_draw = Ok true.
Proof.
  assert (wf board_draw) as Hwf
    by (split; [reflexivity | repeat constructor]).
  split_and!; [done | reflexivity |].
  destruct (terminal_iff board_draw Hwf) as (t & w & Ht & Hw & Hiff).
  rewrite Ht. f_equal. apply Hiff. right.
  repeat constructor; discriminate.
Defined.

(** C7. [utility] returns on every well-formed board: [1] when [winner]
    is [X], [-1] when it is [O] and [0] when there is no winner; on a
    terminal board the last case is the full board. *)
Theorem utility_spec (b : Board) :
  wf b →
  ∃ u w, utility b = Ok u ∧ winner b = Ok w ∧
         (w = Some X → u = 1) ∧ (w = Some O → u = -1) ∧
         (w = None → u = 0) ∧
         (terminal b = Ok true → w = None →
            Forall (Forall (λ c, c ≠ EMPTY)) b).
Proof.
  intros Hwf. destruct (winner_wf b Hwf) as [w Hw].
  unfold utility, terminal. rewrite Hw. simpl.
  destruct w as [[|]|]; simpl; eexists _, _;
    (split_and!; [reflexivity | reflexivity | try done ..]).
  intros Ht _. apply board_full_Forall. by destruct (board_full b).
Qed.

Lemma utility_spec_witness :
  wf board_draw ∧ utility board_draw = Ok 0.
Proof.
  assert (wf board_draw) as Hwf
    by (split; [reflexivity | repeat constructor]).
  split; [done|].
  destruct (utility_spec board_draw Hwf)
    as (u & w & Hu & Hw & _ & _ & H0 & _).
  vm_compute in Hw. injection Hw as <-. rewrite Hu. f_equal. by apply H0.
Defined.

(** C8. Along every sequence of legal moves from [initial_state] the
    player to move alternates: [X] first, and every applied action
    hands the move to the other player. *)
Theorem player_alternates :
  player initial_state = X ∧
  ∀ acts b, play initial_state acts = Ok b →
    player b = (if Nat.even (length acts) then X else O) ∧
    ∀ a b', result b a = Ok b' → player b' = opponent (player b).
Proof.
  split; [reflexivity|]. intros acts b Hplay.
  destruct (play_player acts initial_state b balanced_initial_state Hplay)
    as [Hbal Hp].
  split; [exact Hp|].
  intros a b' Hres. by eapply result_player_flip.
Qed.

Lemma player_alternates_witness :
  play initial_state [(0, 0); (1, 1); (2, 2)]
  = Ok [ [Some X; None; None]; [None; Some O; None]; [None; None; Some X] ] ∧
  player [ [Some X; None; None]; [None; Some O; None]; [None; None; Some X] ]
  = O.
Proof.
  split; [reflexivity|].
  apply (proj2 player_alternates [(0, 0); (1, 1); (2, 2)]). reflexivity.
Defined.

(** C9. The search ends on every well-formed board: a recursive call is
    on a board with one empty cell less, a board has at most nine empty
    cells, and with more fuel than empty cells [max_value], [min_value]
    and [minimax] return a result. *)
Theorem search_terminates (b : Board) :
  wf b →
  (empties b ≤ 9)%nat ∧
  (∀ a b', result b a = Ok b' → wf b' ∧ S (empties b') = empties b) ∧
  ∀ order (fuel : nat), order_ok order → (empties b < fuel)%nat →
    (∃ r, max_value order fuel b = Ok r) ∧
    (∃ r, min_value order fuel b = Ok r) ∧
    (∃ m, minimax order fuel b = Ok m).
Proof.
  intros Hwf. split_and!.
  - by apply empties_wf_le.
  - intros a b' Hres. split; [by eapply result_wf | by eapply result_empties].
  - intros order fuel Hok Hf.
    destruct (max_value_ok order fuel b Hwf Hok Hf) as (v & a & _ & Hmax & _).
    destruct (min_value_ok order fuel b Hwf Hok Hf) as (w & c & _ & Hmin & _).
    split_and!; [by eexists | by eexists |].
    destruct (terminal_wf b Hwf) as [[|] Ht].
    + exists None. by apply minimax_terminal.
    + destruct (minimax_move order fuel b Hwf Hok Hf Ht) as (x & _ & Hmm & _).
      by eexists.
Qed.

Lemma search_terminates_witness :
  wf board2 ∧ order_ok elements ∧ (empties board2 < 10)%nat ∧
  ∃ r, max_value elements 10 board2 = Ok r.
Proof.
  assert (wf board2) as Hwf by (split; [reflexivity | repeat constructor]).
  assert (order_ok elements) as Hok by (intros s; reflexivity).
  assert (empties board2 < 10)%nat as Hf by (vm_compute; lia).
  split_and!; [done..|].
  apply (proj2 (proj2 (search_terminates board2 Hwf)) elements 10%nat Hok Hf).
Defined.

(** C10. On a well-formed board the value returned by [max_value] and
    by [min_value] is an integer among [-1], [0] and [1], never one of
    the infinite initial bounds; a board that is not terminal has a
    legal action. *)
Theorem search_value_range order (fuel : nat) (b : Board) :
  wf b → order_ok order → (empties b < fuel)%nat →
  (∃ v a, max_value order fuel b = Ok (Fin v, a) ∧
          (v = -1 ∨ v = 0 ∨ v = 1)) ∧
  (∃ v a, min_value order fuel b = Ok (Fin v, a) ∧
          (v = -1 ∨ v = 0 ∨ v = 1)) ∧
  (terminal b = Ok true →
     ∃ u, utility b = Ok u ∧ max_value order fuel b = Ok (Fin u, None) ∧
          min_value order fuel b = Ok (Fin u, None)) ∧
  (terminal b = Ok false → ∃ a, a ∈ actions b).
Proof.
  intros Hwf Hok Hf.
  destruct (max_value_ok order fuel b Hwf Hok Hf)
    as (v & a & _ & Hmax & _ & Hv & Htmax & _).
  destruct (min_value_ok order fuel b Hwf Hok Hf)
    as (w & c & _ & Hmin & _ & Hw & Htmin & _).
  split_and!.
  - exists v, a. split; [done | lia].
  - exists w, c. split; [done | lia].
  - intros Ht. destruct (utility_wf b Hwf) as (u & Hu & _).
    destruct fuel as [|fuel]; [lia|].
    exists u. split_and!; [done | by apply max_value_terminal
                          | by apply min_value_terminal].
  - intros Ht. apply actions_nonempty. by apply terminal_false_empties.
Qed.

Lemma search_value_range_witness :
  wf board2 ∧ order_ok elements ∧ (empties board2 < 10)%nat ∧
  ∃ v a, max_value elements 10 board2 = Ok (Fin v, a) ∧
         (v = -1 ∨ v = 0 ∨ v = 1).
Proof.
  assert (wf board2) as Hwf by (split; [reflexivity | repeat constructor]).
  assert (order_ok elements) as Hok by (intros s; reflexivity).
  assert (empties board2 < 10)%nat as Hf by (vm_compute; lia).
  split_and!; [done..|].
  apply (search_value_range elements 10 board2 Hwf Hok Hf).
Defined.

(** * Further properties *)

(** ** The winner *)

Lemma winner_lines (b : Board) :
  winner b
  = foldr (λ l k, check_line b l.1.1 l.1.2 l.2 k) (Ok None) lines.
Proof. reflexivity. Qed.

Lemma lines_in_range : Forall line_in_range lines.
Proof. repeat constructor. Qed.

Lemma line3_line_of (b : Board) (p q r : nat * nat) (x y z : cell) :
  cell_at b p.1 p.2 = Ok x → cell_at b q.1 q.2 = Ok y →
  cell_at b r.1 r.2 = Ok z →
  ∃ t, line3 b p q r = Ok t ∧
       (t = true ↔ ∃ m, x = Some m ∧ y = Some m ∧ z = Some m).
Proof.
  intros Hx Hy Hz. unfold line3. rewrite Hx, Hy. simpl.
  unfold cell_eqb, EMPTY. case_bool_decide as Hxy; simpl.
  - rewrite Hz. simpl. case_bool_decide as Hyz; simpl.
    + subst. case_bool_decide as Hz0; simpl.
      * exists false. split; [done|]. split; [done|].
        intros (m & ? & _). congruence.
      * exists true. split; [done|]. split; [|done].
        intros _. destruct z as [m|]; [|done]. by exists m.
    + exists false. split; [done|]. split; [done|].
      intros (m & ? & ? & ?). congruence.
  - exists false. split; [done|]. split; [done|].
    intros (m & ? & ? & ?). congruence.
Qed.

Lemma check_lines_spec (b : Board)
    (ls : list ((nat * nat) * (nat * nat) * (nat * nat))) :
  wf b → Forall line_in_range ls →
  ∃ w, foldr (λ l k, check_line b l.1.1 l.1.2 l.2 k) (Ok None) ls = Ok w ∧
       match w with
       | Some p =>
           ∃ ls1 l ls2, ls = ls1 ++ l :: ls2 ∧ line_of b p l ∧
                        ∀ l' q, l' ∈ ls1 → ¬ line_of b q l'
       | None => ∀ l q, l ∈ ls → ¬ line_of b q l
       end.
Proof.
  intros Hwf. induction ls as [|l ls IH]; intros Hin.
  - exists None. split; [done|]. intros l q Hl. by apply elem_of_nil in Hl.
  - apply Forall_cons in Hin as [(H1 & H2 & H3 & H4 & H5 & H6) Hin].
    destruct (IH Hin) as (w' & Hfold & Hw').
    destruct (cell_at_wf b _ _ Hwf H1 H2) as [x Hx].
    destruct (cell_at_wf b _ _ Hwf H3 H4) as [y Hy].
    destruct (cell_at_wf b _ _ Hwf H5 H6) as [z Hz].
    destruct (line3_line_of b l.1.1 l.1.2 l.2 x y z Hx Hy Hz)
      as (t & Ht & Hiff).
    simpl. rewrite Hfold. unfold check_line. rewrite Ht. simpl.
    destruct t.
    + destruct (proj1 Hiff eq_refl) as (m & -> & -> & ->).
      exists (Some m). split; [done|].
      exists [], l, ls. split_and!; [done | done |].
      intros l' q Hl'. by apply elem_of_nil in Hl'.
    + assert (∀ q, ¬ line_of b q l) as Hnot.
      { intros q (Hq1 & Hq2 & Hq3).
        assert (false = true); [|done]. apply Hiff. exists q.
        rewrite Hx in Hq1. rewrite Hy in Hq2. rewrite Hz in Hq3.
        by simplify_eq. }
      exists w'. split; [done|]. destruct w' as [p|].
      * destruct Hw' as (ls1 & l0 & ls2 & -> & Hl0 & Hbefore).
        exists (l :: ls1), l0, ls2. split_and!; [done | done |].
        intros l' q [->|Hl']%elem_of_cons; [apply Hnot | by apply Hbefore].
      * intros l' q [->|Hl']%elem_of_cons; [apply Hnot | by apply Hw'].
Qed.

Lemma winner_Some_line (b : Board) (p : Player) :
  wf b → winner b = Ok (Some p) → ∃ l, l ∈ lines ∧ line_of b p l.
Proof.
  intros Hwf Hw. rewrite winner_lines in Hw.
  destruct (check_lines_spec b lines Hwf lines_in_range) as (w & Hw' & Hspec).
  rewrite Hw in Hw'. injection Hw' as <-.
  destruct Hspec as (ls1 & l & ls2 & Heq & Hl & _).
  exists l. split; [|done]. rewrite Heq. apply elem_of_app. right. left.
Qed.

Lemma winner_None_iff (b : Board) :
  wf b → (winner b = Ok None ↔ ∀ l q, l ∈ lines → ¬ line_of b q l).
Proof.
  intros Hwf. rewrite winner_lines.
  destruct (check_lines_spec b lines Hwf lines_in_range) as (w & Hw & Hspec).
  rewrite Hw. destruct w as [p|].
  - split; [done|]. intros Hno.
    destruct Hspec as (ls1 & l & ls2 & Heq & Hl & _).
    exfalso. apply (Hno l p); [|done]. rewrite Heq.
    apply elem_of_app. right. left.
  - done.
Qed.

(** X1. [winner] returns the mark of the first line, in the order rows and
    columns 0, 1, 2 and then the two diagonals, whose three cells hold
    one player's mark, and [None] when there is no such line. *)
Theorem winner_first_line (b : Board) :
  wf b →
  ∃ w, winner b = Ok w ∧
       match w with
       | Some p =>
           ∃ ls1 l ls2, lines = ls1 ++ l :: ls2 ∧ line_of b p l ∧
                        ∀ l' q, l' ∈ ls1 → ¬ line_of b q l'
       | None => ∀ l q, l ∈ lines → ¬ line_of b q l
       end.
Proof.
  intros Hwf. rewrite winner_lines.
  apply check_lines_spec; [done | apply lines_in_range].
Qed.

Lemma winner_first_line_witness :
  wf [ [Some X; Some X; Some X]; [Some O; Some O; None];
       [None; None; None] ] ∧
  winner [ [Some X; Some X; Some X]; [Some O; Some O; None];
           [None; None; None] ] = Ok (Some X).
Proof.
  assert (wf [ [Some X; Some X; Some X]; [Some O; Some O; None];
               [None; None; None] ]) as Hwf
    by (split; [reflexivity | repeat constructor]).
  split; [exact Hwf|].
  destruct (winner_first_line _ Hwf) as (w & Hw & _).
  rewrite Hw. vm_compute in Hw. injection Hw as <-. reflexivity.
Defined.

(** ** Moves and the set of legal actions *)

Lemma cell_at_Ok (b : Board) (n m : nat) (c : cell) :
  cell_at b n m = Ok c ↔ ∃ row, b !! n = Some row ∧ row !! m = Some c.
Proof.
  unfold cell_at. split.
  - destruct (b !! n) as [row|]; [|done].
    destruct (row !! m) as [d|] eqn:Hm; [|done].
    intros [= ->]. eauto.
  - intros (row & -> & ->). done.
Qed.

Lemma elem_of_actions_cell (b : Board) (a : Action) :
  a ∈ actions b ↔
  ∃ n m, a = (Z.of_nat n, Z.of_nat m) ∧ cell_at b n m = Ok EMPTY.
Proof.
  rewrite elem_of_actions. split.
  - intros (n & m & row & -> & Hn & Hm). exists n, m. split; [done|].
    apply cell_at_Ok. eauto.
  - intros (n & m & -> & (row & Hn & Hm)%cell_at_Ok). eauto 10.
Qed.

Lemma result_actions (b b' : Board) (a : Action) :
  result b a = Ok b' →
  actions b' = actions b ∖ {[a]} ∧
  size (actions b) = S (size (actions b')).
Proof.
  intros Hres. pose proof (result_Ok_inv _ _ _ Hres) as Ha.
  destruct (result_legal b a Ha) as (n & m & row & -> & Hn & Hm & Hres').
  rewrite Hres' in Hres. injection Hres as <-.
  assert (m < length row)%nat as Hlt by (by eapply lookup_lt_Some).
  assert (actions (<[n := <[m := Some (player b)]> row]> b)
          = actions b ∖ {[(Z.of_nat n, Z.of_nat m)]}) as Heq.
  { apply set_eq. intros x.
    rewrite elem_of_difference, elem_of_singleton, !elem_of_actions_cell.
    split.
    - intros (i & j & -> & Hc).
      rewrite (cell_at_place b n m row _ i j Hn Hlt) in Hc.
      case_bool_decide as Hij; [done|].
      split; [eauto|]. intros [= ?%Nat2Z.inj ?%Nat2Z.inj]. by apply Hij.
    - intros [(i & j & -> & Hc) Hne]. exists i, j. split; [done|].
      rewrite (cell_at_place b n m row _ i j Hn Hlt).
      rewrite bool_decide_eq_false_2; [done|].
      intros [-> ->]. by apply Hne. }
  split; [done|]. rewrite Heq.
  rewrite size_difference by (by apply singleton_subseteq_l).
  rewrite size_singleton.
  assert (size (actions b) ≠ 0)%nat; [|lia].
  intros Hz. apply size_empty_inv in Hz.
  apply (not_elem_of_empty (C := gset Action) (Z.of_nat n, Z.of_nat m)).
  by rewrite <- Hz.
Qed.

(** X2. On a board whose rows are separate list objects a successful
    [result] takes exactly the action played out of the set of legal
    actions of the board it returns. *)
Theorem result_removes_action (h : heap) (l : loc) (b : Board)
    (a : Action) :
  is_board h l b → a ∈ actions b →
  ∃ h' l' b',
    result_st l a h = (h', Ok l') ∧
    read_board l' h' = (h', Ok b') ∧
    actions b' = actions b ∖ {[a]} ∧
    size (actions b) = S (size (actions b')).
Proof.
  intros Hb Ha.
  destruct (result_legal b a Ha) as (n & m & row & -> & Hn & Hm & Hres).
  destruct (result_st_ok h l b n m row Hb Hn Hm)
    as (h' & l' & Hst & _ & _ & Hb').
  destruct (result_actions _ _ _ Hres) as [Hact Hsize].
  exists h', l', (<[n := <[m := Some (player b)]> row]> b).
  split_and!; [done | by apply read_board_ok | done | done].
Qed.

Lemma result_removes_action_witness :
  is_board heap0 4%positive initial_state ∧
  (1, 1) ∈ actions initial_state ∧
  size (actions initial_state) = 9%nat ∧
  ∃ h' l' b',
    result_st 4%positive (1, 1) heap0 = (h', Ok l') ∧
    read_board l' h' = (h', Ok b') ∧
    size (actions b') = 8%nat.
Proof.
  assert (is_board heap0 4%positive initial_state) as Hb.
  { exists [1; 2; 3]%positive.
    split; [reflexivity|]. split; [|repeat constructor].
    apply (bool_decide_unpack _). vm_compute. reflexivity. }
  assert ((1, 1) ∈ actions initial_state) as Ha.
  { apply (bool_decide_unpack _). vm_compute. reflexivity. }
  assert (size (actions initial_state) = 9%nat) as H9 by (by vm_compute).
  split_and!; [exact Hb | exact Ha | exact H9 |].
  destruct (result_removes_action heap0 4%positive initial_state (1, 1)
              Hb Ha) as (h' & l' & b' & Hst & Hread & _ & Hsize).
  exists h', l', b'. split_and!; [exact Hst | exact Hread |].
  rewrite H9 in Hsize. lia.
Defined.

(** X3. On a nested list of any shape [result] returns a board when the
    action is in [actions] and raises the invalid-action exception
    otherwise; it never raises [IndexError], and an action with a
    negative index is always refused. *)
Theorem result_any_shape (b : Board) (i j : Z) :
  ((i, j) ∈ actions b → ∃ b', result b (i, j) = Ok b') ∧
  ((i, j) ∉ actions b → result b (i, j) = Raise InvalidAction) ∧
  result b (i, j) ≠ Raise IndexError ∧
  (i < 0 ∨ j < 0 → result b (i, j) = Raise InvalidAction).
Proof.
  assert ((i, j) ∈ actions b → ∃ b', result b (i, j) = Ok b') as Hok.
  { intros Ha.
    destruct (result_legal b _ Ha) as (n & m & row & _ & _ & _ & Hres).
    eauto. }
  split_and!.
  - exact Hok.
  - apply result_illegal.
  - destruct (decide ((i, j) ∈ actions b)) as [Ha|Ha].
    + destruct (Hok Ha) as [b' ->]. discriminate.
    + rewrite (result_illegal _ _ Ha). discriminate.
  - intros Hneg. apply result_illegal.
    intros (n & m & row & [= -> ->] & _)%elem_of_actions. lia.
Qed.

(** X4. A move can only make the mover win: after a legal move on a board
    without a winner, [winner] is [None] or the player who moved. *)
Theorem result_winner_mover (b b' : Board) (a : Action) :
  wf b → winner b = Ok None → result b a = Ok b' →
  winner b' = Ok None ∨ winner b' = Ok (Some (player b)).
Proof.
  intros Hwf Hnone Hres.
  pose proof (result_wf b b' a Hwf Hres) as Hwf'.
  destruct (result_legal b a (result_Ok_inv _ _ _ Hres))
    as (n & m & row & -> & Hn & Hm & Hres').
  rewrite Hres' in Hres. injection Hres as <-.
  assert (m < length row)%nat as Hlt by (by eapply lookup_lt_Some).
  destruct (winner_wf _ Hwf') as [w Hw].
  rewrite Hw. destruct w as [p|]; [|by left]. right.
  destruct (decide (p = player b)) as [->|Hne]; [done|]. exfalso.
  destruct (winner_Some_line _ p Hwf' Hw) as (l & Hl & H1 & H2 & H3).
  rewrite (cell_at_place b n m row _ _ _ Hn Hlt) in H1.
  rewrite (cell_at_place b n m row _ _ _ Hn Hlt) in H2.
  rewrite (cell_at_place b n m row _ _ _ Hn Hlt) in H3.
  apply (proj1 (winner_None_iff b Hwf) Hnone l p Hl).
  repeat case_bool_decide; simplify_eq; done.
Qed.

Lemma result_winner_mover_witness :
  wf board2 ∧ winner board2 = Ok None ∧
  winner [ [Some X; Some X; Some X]; [Some O; Some O; None];
           [None; None; None] ] = Ok (Some X).
Proof.
  assert (wf board2) as Hwf by (split; [reflexivity | repeat constructor]).
  assert (winner board2 = Ok None) as Hnone by reflexivity.
  split_and!; [done..|].
  destruct (result_winner_mover board2
              [ [Some X; Some X; Some X]; [Some O; Some O; None];
                [None; None; None] ] (0, 2) Hwf Hnone eq_refl)
    as [H|H]; [vm_compute in H; discriminate | exact H].
Defined.

(** ** Full boards and the set of legal actions *)

Lemma count_lookup (c : cell) (row : list cell) (m : nat) :
  row !! m = Some c → (0 < count c row)%nat.
Proof.
  revert m. induction row as [|d row IH]; intros [|m] Hm; simplify_eq/=.
  - unfold cell_eqb. rewrite bool_decide_eq_true_2 by done. lia.
  - specialize (IH m Hm). lia.
Qed.

Lemma count_board_lookup (c : cell) (b : Board) (n m : nat)
    (row : list cell) :
  b !! n = Some row → row !! m = Some c → (0 < count_board c b)%nat.
Proof.
  intros Hn Hm. pose proof (count_lookup c row m Hm) as Hpos.
  revert n Hn. unfold count_board.
  induction b as [|r b IH]; intros [|n] Hn; simplify_eq/=; [lia|].
  specialize (IH n Hn). lia.
Qed.

Lemma board_full_actions (b : Board) :
  board_full b = true ↔ actions b = ∅.
Proof.
  rewrite board_full_empties. split.
  - intros He. apply set_eq. intros a. split; [|by intros ?%not_elem_of_empty].
    intros (n & m & row & _ & Hn & Hm)%elem_of_actions.
    pose proof (count_board_lookup EMPTY b n m row Hn Hm) as Hpos.
    unfold empties in He. lia.
  - intros Hempty. destruct (empties b) as [|k] eqn:He; [done|].
    destruct (actions_nonempty b) as [a Ha]; [lia|].
    rewrite Hempty in Ha. by apply not_elem_of_empty in Ha.
Qed.

(** X5. On a well-formed board [terminal] returns [True] exactly when
    [winner] returns a player or [actions] is the empty set. *)
Theorem terminal_iff_no_actions (b : Board) :
  wf b →
  (terminal b = Ok true ↔
     (∃ p, winner b = Ok (Some p)) ∨ actions b = ∅) ∧
  (terminal b = Ok false ↔
     winner b = Ok None ∧ actions b ≠ ∅).
Proof.
  intros Hwf. destruct (winner_wf b Hwf) as [w Hw].
  unfold terminal. rewrite Hw. simpl.
  rewrite <- board_full_actions.
  destruct w as [p|]; simpl.
  - split; split; try done.
    + intros _. left. by exists p.
    + by intros [? _].
  - destruct (board_full b); split; split; try done.
    + intros _. by right.
    + by intros [_ ?].
    + by intros [[p ?]|?].
Qed.

Lemma terminal_iff_no_actions_witness :
  wf board_draw ∧ actions board_draw = ∅ ∧ terminal board_draw = Ok true.
Proof.
  assert (wf board_draw) as Hwf
    by (split; [reflexivity | repeat constructor]).
  assert (actions board_draw = ∅) as He by reflexivity.
  split_and!; [done..|].
  apply (proj1 (terminal_iff_no_actions board_draw Hwf)). by right.
Defined.

Lemma utility_nonterminal (b : Board) :
  terminal b = Ok false → utility b = Ok 0.
Proof.
  unfold terminal, utility. intros (w & Hw & H)%bind_Ok. rewrite Hw. simpl.
  by destruct w as [[|]|].
Qed.

(** X6. [utility] is [0] exactly when [winner] finds no winner, whether
    or not the game is over: on a board that is not terminal it
    returns [0], like for a draw. *)
Theorem utility_zero_iff (b : Board) :
  wf b →
  (utility b = Ok 0 ↔ winner b = Ok None) ∧
  (terminal b = Ok false → utility b = Ok 0).
Proof.
  intros Hwf. destruct (winner_wf b Hwf) as [w Hw].
  unfold utility, terminal. rewrite Hw. simpl.
  destruct w as [[|]|]; simpl; split; try done.
Qed.

Lemma utility_zero_iff_witness :
  wf initial_state ∧ terminal initial_state = Ok false ∧
  utility initial_state = Ok 0.
Proof.
  assert (wf initial_state) as Hwf
    by (split; [reflexivity | repeat constructor]).
  split_and!; [done | reflexivity |].
  apply (proj2 (utility_zero_iff initial_state Hwf)). reflexivity.
Defined.

(** ** Length of a game *)

Lemma play_invariant (acts : list Action) :
  ∀ b0 b, wf b0 → play b0 acts = Ok b →
    wf b ∧
    (length acts + empties b = empties b0)%nat ∧
    (count_board (Some X) b + count_board (Some O) b
     = count_board (Some X) b0 + count_board (Some O) b0 + length acts)%nat.
Proof.
  induction acts as [|a acts IH]; intros b0 b Hwf Hplay.
  - injection Hplay as <-. simpl. split_and!; [done | lia | lia].
  - simpl in Hplay. apply bind_Ok in Hplay as (b1 & Hres & Hplay).
    destruct (IH b1 b (result_wf _ _ _ Hwf Hres) Hplay) as (Hwfb & He & Hc).
    pose proof (result_empties _ _ _ Hres) as He1.
    pose proof (result_count _ _ _ X Hres) as HX.
    pose proof (result_count _ _ _ O Hres) as HO.
    split_and!; [done | simpl; lia |].
    simpl. destruct (player b0).
    + rewrite bool_decide_eq_true_2 in HX by done.
      rewrite bool_decide_eq_false_2 in HO by done. lia.
    + rewrite bool_decide_eq_false_2 in HX by done.
      rewrite bool_decide_eq_true_2 in HO by done. lia.
Qed.

(** X7. After [n] legal moves from [initial_state] the board is well
    formed, has [9 - n] empty cells, [X] has placed the first, third, ...
    mark and [O] the others; so a game has at most nine moves. *)
Theorem play_length (acts : list Action) (b : Board) :
  play initial_state acts = Ok b →
  wf b ∧
  (length acts + empties b = 9)%nat ∧
  (length acts ≤ 9)%nat ∧
  count_board (Some X) b = (S (length acts) / 2)%nat ∧
  count_board (Some O) b = (length acts / 2)%nat.
Proof.
  intros Hplay.
  destruct (play_invariant acts initial_state b wf_initial_state Hplay)
    as (Hwf & He & Hc).
  destruct (play_player acts initial_state b balanced_initial_state Hplay)
    as [Hbal _].
  change (empties initial_state) with 9%nat in He.
  change (count_board (Some X) initial_state) with 0%nat in Hc.
  change (count_board (Some O) initial_state) with 0%nat in Hc.
  split_and!; [done | lia | lia | |].
  - destruct Hbal as [Hb|Hb].
    + assert (length acts = 2 * count_board (Some O) b)%nat as -> by lia.
      rewrite Hb.
      replace (S (2 * count_board (Some O) b))%nat
        with (1 + count_board (Some O) b * 2)%nat by lia.
      rewrite Nat.div_add by done. done.
    + assert (S (length acts) = count_board (Some X) b * 2)%nat as -> by lia.
      by rewrite Nat.div_mul.
  - destruct Hbal as [Hb|Hb].
    + assert (length acts = count_board (Some O) b * 2)%nat as -> by lia.
      by rewrite Nat.div_mul.
    + assert (length acts = 1 + count_board (Some O) b * 2)%nat as -> by lia.
      rewrite Nat.div_add by done. done.
Qed.

Lemma play_length_witness :
  play initial_state [(0, 0); (1, 1); (2, 2)]
  = Ok [ [Some X; None; None]; [None; Some O; None]; [None; None; Some X] ] ∧
  (3 + empties [ [Some X; None; None]; [None; Some O; None];
                 [None; None; Some X] ] = 9)%nat.
Proof.
  split; [reflexivity|].
  apply (play_length [(0, 0); (1, 1); (2, 2)]). reflexivity.
Defined.

(** ** Optimality of the search *)

Lemma children_ok_min_ref (b : Board) :
  wf b →
  children_ok (min_value elements (empties b)) b (child_val min_ref b)
    (elements (actions b)).
Proof.
  intros Hwf. apply children_ok_ref.
  - intros a Ha. by apply elem_of_elements.
  - intros a b' Hres.
    pose proof (result_wf _ _ _ Hwf Hres) as Hwf'.
    pose proof (result_empties _ _ _ Hres) as He.
    destruct (min_value_ok elements (empties b) b' Hwf' order_ok_elements
                ltac:(lia)) as (v & x & x0 & H1 & H2 & H3 & _).
    eauto 10.
Qed.

Lemma children_ok_max_ref (b : Board) :
  wf b →
  children_ok (max_value elements (empties b)) b (child_val max_ref b)
    (elements (actions b)).
Proof.
  intros Hwf. apply children_ok_ref.
  - intros a Ha. by apply elem_of_elements.
  - intros a b' Hres.
    pose proof (result_wf _ _ _ Hwf Hres) as Hwf'.
    pose proof (result_empties _ _ _ Hres) as He.
    destruct (max_value_ok elements (empties b) b' Hwf' order_ok_elements
                ltac:(lia)) as (v & x & x0 & H1 & H2 & H3 & _).
    eauto 10.
Qed.

Lemma max_ref_upper (b b' : Board) (x : Action) :
  wf b → terminal b = Ok false → result b x = Ok b' →
  value_of (min_ref b') ≤ value_of (max_ref b).
Proof.
  intros Hwf Ht Hres.
  pose proof (result_Ok_inv _ _ _ Hres) as Hx.
  destruct (max_loop_top _ _ _ _ (children_ok_min_ref b Hwf)
              (order_nonempty elements _ _ order_ok_elements Hx))
    as (a & Ha & Hrun & Hub).
  unfold max_ref at 1. rewrite max_value_step by done. rewrite Hrun. simpl.
  specialize (Hub x (proj2 (elem_of_elements _ _) Hx)).
  unfold child_val at 1 in Hub. by rewrite Hres in Hub.
Qed.

Lemma min_ref_lower (b b' : Board) (x : Action) :
  wf b → terminal b = Ok false → result b x = Ok b' →
  value_of (min_ref b) ≤ value_of (max_ref b').
Proof.
  intros Hwf Ht Hres.
  pose proof (result_Ok_inv _ _ _ Hres) as Hx.
  destruct (min_loop_top _ _ _ _ (children_ok_max_ref b Hwf)
              (order_nonempty elements _ _ order_ok_elements Hx))
    as (a & Ha & Hrun & Hub).
  unfold min_ref at 1. rewrite min_value_step by done. rewrite Hrun. simpl.
  specialize (Hub x (proj2 (elem_of_elements _ _) Hx)).
  unfold child_val at 2 in Hub. by rewrite Hres in Hub.
Qed.

(** X8. On a board that is not terminal [max_value] returns a legal
    action and the largest of the values [min_value] gives to the boards
    one move away: the early exit loses nothing. *)
Theorem max_value_optimal order (fuel : nat) (b : Board) :
  wf b → order_ok order → (empties b < fuel)%nat →
  terminal b = Ok false →
  ∃ v a b_a,
    max_value order fuel b = Ok (Fin v, Some a) ∧
    result b a = Ok b_a ∧
    (∀ order' (fuel' : nat), order_ok order' → (empties b_a < fuel')%nat →
       ∃ y, min_value order' fuel' b_a = Ok (Fin v, y)) ∧
    (∀ x b' order' (fuel' : nat),
       result b x = Ok b' → order_ok order' → (empties b' < fuel')%nat →
       ∃ w y, min_value order' fuel' b' = Ok (Fin w, y) ∧ w ≤ v).
Proof.
  intros Hwf Hok Hf Ht.
  destruct (max_value_ok order fuel b Hwf Hok Hf)
    as (v & a & a0 & Hrun & Href & _ & _ & Hmove).
  destruct (Hmove Ht) as (x0 & b_a & a' & -> & Hres & Hchild).
  exists v, x0, b_a. split_and!; [done | done | |].
  - intros order' fuel' Hok' Hf'.
    destruct (min_value_ok order' fuel' b_a (result_wf _ _ _ Hwf Hres)
                Hok' Hf') as (w & y & y0 & Hr & Hr0 & _).
    rewrite Hchild in Hr0. injection Hr0 as <- _. by exists y.
  - intros x b' order' fuel' Hres' Hok' Hf'.
    destruct (min_value_ok order' fuel' b' (result_wf _ _ _ Hwf Hres')
                Hok' Hf') as (w & y & y0 & Hr & Hr0 & _).
    exists w, y. split; [done|].
    pose proof (max_ref_upper b b' x Hwf Ht Hres') as Hle.
    by rewrite Hr0, Href in Hle.
Qed.

Lemma max_value_optimal_witness :
  wf board2 ∧ order_ok elements ∧ (empties board2 < 6)%nat ∧
  terminal board2 = Ok false ∧
  ∃ v a, max_value elements 6 board2 = Ok (Fin v, Some a).
Proof.
  assert (wf board2) as Hwf by (split; [reflexivity | repeat constructor]).
  assert (order_ok elements) as Hok by (intros s; reflexivity).
  assert (empties board2 < 6)%nat as Hf by (vm_compute; lia).
  assert (terminal board2 = Ok false) as Ht by reflexivity.
  split_and!; [done..|].
  destruct (max_value_optimal elements 6 board2 Hwf Hok Hf Ht)
    as (v & a & b_a & Hrun & _).
  exists v, a. exact Hrun.
Defined.

(** X9. On a board that is not terminal [min_value] returns a legal
    action and the smallest of the values [max_value] gives to the
    boards one move away. *)
Theorem min_value_optimal order (fuel : nat) (b : Board) :
  wf b → order_ok order → (empties b < fuel)%nat →
  terminal b = Ok false →
  ∃ v a b_a,
    min_value order fuel b = Ok (Fin v, Some a) ∧
    result b a = Ok b_a ∧
    (∀ order' (fuel' : nat), order_ok order' → (empties b_a < fuel')%nat →
       ∃ y, max_value order' fuel' b_a = Ok (Fin v, y)) ∧
    (∀ x b' order' (fuel' : nat),
       result b x = Ok b' → order_ok order' → (empties b' < fuel')%nat →
       ∃ w y, max_value order' fuel' b' = Ok (Fin w, y) ∧ v ≤ w).
Proof.
  intros Hwf Hok Hf Ht.
  destruct (min_value_ok order fuel b Hwf Hok Hf)
    as (v & a & a0 & Hrun & Href & _ & _ & Hmove).
  destruct (Hmove Ht) as (x0 & b_a & a' & -> & Hres & Hchild).
  exists v, x0, b_a. split_and!; [done | done | |].
  - intros order' fuel' Hok' Hf'.
    destruct (max_value_ok order' fuel' b_a (result_wf _ _ _ Hwf Hres)
                Hok' Hf') as (w & y & y0 & Hr & Hr0 & _).
    rewrite Hchild in Hr0. injection Hr0 as <- _. by exists y.
  - intros x b' order' fuel' Hres' Hok' Hf'.
    destruct (max_value_ok order' fuel' b' (result_wf _ _ _ Hwf Hres')
                Hok' Hf') as (w & y & y0 & Hr & Hr0 & _).
    exists w, y. split; [done|].
    pose proof (min_ref_lower b b' x Hwf Ht Hres') as Hle.
    by rewrite Hr0, Href in Hle.
Qed.

Lemma min_value_optimal_witness :
  wf board2 ∧ order_ok elements ∧ (empties board2 < 6)%nat ∧
  terminal board2 = Ok false ∧
  ∃ v a, min_value elements 6 board2 = Ok (Fin v, Some a).
Proof.
  assert (wf board2) as Hwf by (split; [reflexivity | repeat constructor]).
  assert (order_ok elements) as Hok by (intros s; reflexivity).
  assert (empties board2 < 6)%nat as Hf by (vm_compute; lia).
  assert (terminal board2 = Ok false) as Ht by reflexivity.
  split_and!; [done..|].
  destruct (min_value_optimal elements 6 board2 Hwf Hok Hf Ht)
    as (v & a & b_a & Hrun & _).
  exists v, a. exact Hrun.
Defined.

(** X10. The value [max_value] and [min_value] return does not depend on
    the order in which the set of actions is walked. *)
Theorem search_order_independent order1 order2 (fuel1 fuel2 : nat)
    (b : Board) :
  wf b → order_ok order1 → order_ok order2 →
  (empties b < fuel1)%nat → (empties b < fuel2)%nat →
  ∃ v w a1 a2 c1 c2,
    max_value order1 fuel1 b = Ok (Fin v, a1) ∧
    max_value order2 fuel2 b = Ok (Fin v, a2) ∧
    min_value order1 fuel1 b = Ok (Fin w, c1) ∧
    min_value order2 fuel2 b = Ok (Fin w, c2).
Proof.
  intros Hwf Hok1 Hok2 Hf1 Hf2.
  destruct (max_value_ok order1 fuel1 b Hwf Hok1 Hf1)
    as (v1 & a1 & ? & Hr1 & Href1 & _).
  destruct (max_value_ok order2 fuel2 b Hwf Hok2 Hf2)
    as (v2 & a2 & ? & Hr2 & Href2 & _).
  destruct (min_value_ok order1 fuel1 b Hwf Hok1 Hf1)
    as (w1 & c1 & ? & Hs1 & Hsef1 & _).
  destruct (min_value_ok order2 fuel2 b Hwf Hok2 Hf2)
    as (w2 & c2 & ? & Hs2 & Hsef2 & _).
  rewrite Href1 in Href2. injection Href2 as <- _.
  rewrite Hsef1 in Hsef2. injection Hsef2 as <- _.
  by exists v1, w1, a1, a2, c1, c2.
Qed.

Lemma search_order_independent_witness :
  wf board2 ∧ order_ok elements ∧ order_ok (λ s, reverse (elements s)) ∧
  (empties board2 < 6)%nat ∧
  ∃ v a1 a2,
    max_value elements 6 board2 = Ok (Fin v, a1) ∧
    max_value (λ s, reverse (elements s)) 7 board2 = Ok (Fin v, a2).
Proof.
  assert (wf board2) as Hwf by (split; [reflexivity | repeat constructor]).
  assert (order_ok elements) as Hok by (intros s; reflexivity).
  assert (order_ok (λ s, reverse (elements s))) as Hok'
    by (intros s; apply reverse_Permutation).
  assert (empties board2 < 6)%nat as Hf by (vm_compute; lia).
  assert (empties board2 < 7)%nat as Hf' by (vm_compute; lia).
  split_and!; [done..|].
  destruct (search_order_independent elements (λ s, reverse (elements s))
              6 7 board2 Hwf Hok Hok' Hf Hf')
    as (v & w & a1 & a2 & c1 & c2 & H1 & H2 & _).
  exists v, a1, a2. exact (conj H1 H2).
Defined.

(** ** Which of several best actions is returned *)

Lemma max_loop_first rec b val todo v best :
  children_ok rec b val todo →
  ext_gtb v (Fin 1) = false →
  ∃ v' best',
    max_loop rec b todo v best = Ok (v', best') ∧
    ((v' = v ∧ best' = best ∧
      ∀ a, a ∈ todo → ext_gtb (Fin (val a)) v = false) ∨
     (∃ l1 a l2,
        todo = l1 ++ a :: l2 ∧ best' = Some a ∧ v' = Fin (val a) ∧
        ext_gtb (Fin (val a)) v = true ∧
        (∀ a', a' ∈ l1 → val a' < val a) ∧
        (∀ a', a' ∈ l2 → val a' ≤ val a))).
Proof.
  revert v best. induction todo as [|a todo IH]; intros v best Hch Hv.
  - exists v, best. split; [done|]. left. split_and!; [done | done |].
    intros a Ha. by apply elem_of_nil in Ha.
  - apply children_ok_cons in Hch as [(b' & x & Hres & Hrec & Hval) Hch].
    assert (∀ a', a' ∈ todo → val a' ≤ 1) as Hle1.
    { intros a' Ha'. destruct (Hch a' Ha') as (? & ? & _ & _ & ?). lia. }
    simpl. rewrite Hres. simpl. rewrite Hrec. simpl.
    destruct (ext_gtb (Fin (val a)) v) eqn:Hgt; simpl.
    + destruct (ext_eqb (Fin (val a)) (Fin 1)) eqn:Heq.
      * exists (Fin (val a)), (Some a). split; [done|]. right.
        exists [], a, todo. split_and!; [done | done | done | done | |].
        -- intros a' Ha'. by apply elem_of_nil in Ha'.
        -- intros a' Ha'. specialize (Hle1 a' Ha'). by ext_cases.
      * destruct (IH (Fin (val a)) (Some a) Hch) as
          (v' & best' & Hloop & Hcases); [by ext_cases|].
        exists v', best'. split; [done|]. right.
        destruct Hcases as [(-> & -> & Hno)|
          (l1 & a2 & l2 & -> & -> & -> & Hgt2 & Hl1 & Hl2)].
        -- exists [], a, todo. split_and!; [done | done | done | done | |].
           ++ intros a' Ha'. by apply elem_of_nil in Ha'.
           ++ intros a' Ha'. specialize (Hno a' Ha'). by ext_cases.
        -- exists (a :: l1), a2, l2.
           split_and!; [done | done | done | by ext_cases | | done].
           intros a' [->|Ha']%elem_of_cons; [by ext_cases | by apply Hl1].
    + destruct (ext_eqb v (Fin 1)) eqn:Heq.
      * exists v, best. split; [done|]. left.
        split_and!; [done | done |].
        intros a' [->|Ha']%elem_of_cons; [done|].
        specialize (Hle1 a' Ha'). by ext_cases.
      * destruct (IH v best Hch Hv) as (v' & best' & Hloop & Hcases).
        exists v', best'. split; [done|].
        destruct Hcases as [(-> & -> & Hno)|
          (l1 & a2 & l2 & -> & -> & -> & Hgt2 & Hl1 & Hl2)].
        -- left. split_and!; [done | done |].
           intros a' [->|Ha']%elem_of_cons; [done | by apply Hno].
        -- right. exists (a :: l1), a2, l2.
           split_and!; [done | done | done | done | | done].
           intros a' [->|Ha']%elem_of_cons; [by ext_cases | by apply Hl1].
Qed.

Lemma min_loop_first rec b val todo v best :
  children_ok rec b val todo →
  ext_ltb v (Fin (-1)) = false →
  ∃ v' best',
    min_loop rec b todo v best = Ok (v', best') ∧
    ((v' = v ∧ best' = best ∧
      ∀ a, a ∈ todo → ext_ltb (Fin (val a)) v = false) ∨
     (∃ l1 a l2,
        todo = l1 ++ a :: l2 ∧ best' = Some a ∧ v' = Fin (val a) ∧
        ext_ltb (Fin (val a)) v = true ∧
        (∀ a', a' ∈ l1 → val a < val a') ∧
        (∀ a', a' ∈ l2 → val a ≤ val a'))).
Proof.
  revert v best. induction todo as [|a todo IH]; intros v best Hch Hv.
  - exists v, best. split; [done|]. left. split_and!; [done | done |].
    intros a Ha. by apply elem_of_nil in Ha.
  - apply children_ok_cons in Hch as [(b' & x & Hres & Hrec & Hval) Hch].
    assert (∀ a', a' ∈ todo → -1 ≤ val a') as Hle1.
    { intros a' Ha'. destruct (Hch a' Ha') as (? & ? & _ & _ & ?). lia. }
    simpl. rewrite Hres. simpl. rewrite Hrec. simpl.
    destruct (ext_ltb (Fin (val a)) v) eqn:Hgt; simpl.
    + destruct (ext_eqb (Fin (val a)) (Fin (-1))) eqn:Heq.
      * exists (Fin (val a)), (Some a). split; [done|]. right.
        exists [], a, todo. split_and!; [done | done | done | done | |].
        -- intros a' Ha'. by apply elem_of_nil in Ha'.
        -- intros a' Ha'. specialize (Hle1 a' Ha'). by ext_cases.
      * destruct (IH (Fin (val a)) (Some a) Hch) as
          (v' & best' & Hloop & Hcases); [by ext_cases|].
        exists v', best'. split; [done|]. right.
        destruct Hcases as [(-> & -> & Hno)|
          (l1 & a2 & l2 & -> & -> & -> & Hgt2 & Hl1 & Hl2)].
        -- exists [], a, todo. split_and!; [done | done | done | done | |].
           ++ intros a' Ha'. by apply elem_of_nil in Ha'.
           ++ intros a' Ha'. specialize (Hno a' Ha'). by ext_cases.
        -- exists (a :: l1), a2, l2.
           split_and!; [done | done | done | by ext_cases | | done].
           intros a' [->|Ha']%elem_of_cons; [by ext_cases | by apply Hl1].
    + destruct (ext_eqb v (Fin (-1))) eqn:Heq.
      * exists v, best. split; [done|]. left.
        split_and!; [done | done |].
        intros a' [->|Ha']%elem_of_cons; [done|].
        specialize (Hle1 a' Ha'). by ext_cases.
      * destruct (IH v best Hch Hv) as (v' & best' & Hloop & Hcases).
        exists v', best'. split; [done|].
        destruct Hcases as [(-> & -> & Hno)|
          (l1 & a2 & l2 & -> & -> & -> & Hgt2 & Hl1 & Hl2)].
        -- left. split_and!; [done | done |].
           intros a' [->|Ha']%elem_of_cons; [done | by apply Hno].
        -- right. exists (a :: l1), a2, l2.
           split_and!; [done | done | done | done | | done].
           intros a' [->|Ha']%elem_of_cons; [by ext_cases | by apply Hl1].
Qed.

(** X11. Among the actions of greatest value [max_value] returns the one
    the loop meets first: every action walked before it leads to a board
    of strictly smaller value.  For [min_value] it is the first action of
    smallest value. *)
Theorem search_tie_break order (fuel : nat) (b : Board) :
  wf b → order_ok order → (empties b < fuel)%nat →
  terminal b = Ok false →
  (∃ v l1 a l2,
     order (actions b) = l1 ++ a :: l2 ∧
     max_value order fuel b = Ok (Fin v, Some a) ∧
     ∀ x b' order' (fuel' : nat),
       x ∈ l1 → result b x = Ok b' →
       order_ok order' → (empties b' < fuel')%nat →
       ∃ w y, min_value order' fuel' b' = Ok (Fin w, y) ∧ w < v) ∧
  (∃ v l1 a l2,
     order (actions b) = l1 ++ a :: l2 ∧
     min_value order fuel b = Ok (Fin v, Some a) ∧
     ∀ x b' order' (fuel' : nat),
       x ∈ l1 → result b x = Ok b' →
       order_ok order' → (empties b' < fuel')%nat →
       ∃ w y, max_value order' fuel' b' = Ok (Fin w, y) ∧ v < w).
Proof.
  intros Hwf Hok Hf Ht. destruct fuel as [|f]; [lia|].
  pose proof (terminal_false_empties b Ht) as Hpos.
  destruct (actions_nonempty b Hpos) as [a1 Ha1].
  pose proof (order_nonempty order _ _ Hok Ha1) as Hne.
  assert (children_ok (min_value order f) b (child_val min_ref b)
            (order (actions b))) as Hmin.
  { apply children_ok_ref.
    - intros a Ha. by apply (elem_of_order order _ _ Hok).
    - intros a b' Hres.
      pose proof (result_empties _ _ _ Hres) as He.
      destruct (min_value_ok order f b' (result_wf _ _ _ Hwf Hres) Hok
                  ltac:(lia)) as (v & x & x0 & H1 & H2 & H3 & _).
      eauto 10. }
  assert (children_ok (max_value order f) b (child_val max_ref b)
            (order (actions b))) as Hmax.
  { apply children_ok_ref.
    - intros a Ha. by apply (elem_of_order order _ _ Hok).
    - intros a b' Hres.
      pose proof (result_empties _ _ _ Hres) as He.
      destruct (max_value_ok order f b' (result_wf _ _ _ Hwf Hres) Hok
                  ltac:(lia)) as (v & x & x0 & H1 & H2 & H3 & _).
      eauto 10. }
  split.
  - destruct (max_loop_first _ _ _ _ NegInf None Hmin eq_refl)
      as (v' & best' & Hloop & Hcases).
    destruct Hcases as [(_ & _ & Hno)|
      (l1 & a & l2 & Heq & -> & -> & _ & Hl1 & _)].
    { destruct (order (actions b)) as [|a0 l]; [done|].
      specialize (Hno a0 (list_elem_of_here _ _)). discriminate. }
    exists (child_val min_ref b a), l1, a, l2.
    rewrite max_value_step by done. split_and!; [done | done |].
    intros x b' order' fuel' Hx Hres Hok' Hf'.
    destruct (min_value_ok order' fuel' b' (result_wf _ _ _ Hwf Hres)
                Hok' Hf') as (w & y & y0 & Hr & Hr0 & _).
    exists w, y. split; [done|].
    specialize (Hl1 x Hx). unfold child_val at 1 in Hl1.
    by rewrite Hres, Hr0 in Hl1.
  - destruct (min_loop_first _ _ _ _ PosInf None Hmax eq_refl)
      as (v' & best' & Hloop & Hcases).
    destruct Hcases as [(_ & _ & Hno)|
      (l1 & a & l2 & Heq & -> & -> & _ & Hl1 & _)].
    { destruct (order (actions b)) as [|a0 l]; [done|].
      specialize (Hno a0 (list_elem_of_here _ _)). discriminate. }
    exists (child_val max_ref b a), l1, a, l2.
    rewrite min_value_step by done. split_and!; [done | done |].
    intros x b' order' fuel' Hx Hres Hok' Hf'.
    destruct (max_value_ok order' fuel' b' (result_wf _ _ _ Hwf Hres)
                Hok' Hf') as (w & y & y0 & Hr & Hr0 & _).
    exists w, y. split; [done|].
    specialize (Hl1 x Hx). unfold child_val at 2 in Hl1.
    by rewrite Hres, Hr0 in Hl1.
Qed.

Lemma search_tie_break_witness :
  wf board2 ∧ order_ok elements ∧ (empties board2 < 6)%nat ∧
  terminal board2 = Ok false ∧
  ∃ v l1 a l2,
    elements (actions board2) = l1 ++ a :: l2 ∧
    max_value elements 6 board2 = Ok (Fin v, Some a).
Proof.
  assert (wf board2) as Hwf by (split; [reflexivity | repeat constructor]).
  assert (order_ok elements) as Hok by (intros s; reflexivity).
  assert (empties board2 < 6)%nat as Hf by (vm_compute; lia).
  assert (terminal board2 = Ok false) as Ht by reflexivity.
  split_and!; [exact Hwf | exact Hok | exact Hf | exact Ht |].
  destruct (proj1 (search_tie_break elements 6 board2 Hwf Hok Hf Ht))
    as (v & l1 & a & l2 & Heq & Hrun & _).
  exists v, l1, a, l2. exact (conj Heq Hrun).
Defined.

(** ** Winning moves *)

Lemma winner_terminal (b : Board) (p : Player) :
  winner b = Ok (Some p) →
  terminal b = Ok true ∧
  utility b = Ok (match p with X => 1 | O => -1 end).
Proof.
  intros Hw. unfold terminal, utility. rewrite Hw. by destruct p.
Qed.

(** X12. When some legal move completes a line of [X], [max_value] returns
    the value [1]; when some legal move completes a line of [O],
    [min_value] returns [-1]. *)
Theorem search_sees_win order (fuel : nat) (b b' : Board) (x : Action) :
  wf b → order_ok order → (empties b < fuel)%nat →
  terminal b = Ok false → result b x = Ok b' →
  (winner b' = Ok (Some X) →
     ∃ a, max_value order fuel b = Ok (Fin 1, Some a)) ∧
  (winner b' = Ok (Some O) →
     ∃ a, min_value order fuel b = Ok (Fin (-1), Some a)).
Proof.
  intros Hwf Hok Hf Ht Hres.
  pose proof (result_wf _ _ _ Hwf Hres) as Hwf'.
  split; intros Hw.
  - destruct (winner_terminal b' X Hw) as [Ht' Hu'].
    destruct (max_value_ok order fuel b Hwf Hok Hf)
      as (v & a & a0 & Hrun & Href & Hb & _ & Hmove).
    destruct (Hmove Ht) as (x0 & _ & _ & -> & _).
    pose proof (max_ref_upper b b' x Hwf Ht Hres) as Hle.
    unfold min_ref in Hle.
    rewrite (min_value_terminal _ _ _ _ Ht' Hu'), Href in Hle.
    simpl in Hle. exists x0. rewrite Hrun. by replace v with 1 by lia.
  - destruct (winner_terminal b' O Hw) as [Ht' Hu'].
    destruct (min_value_ok order fuel b Hwf Hok Hf)
      as (v & a & a0 & Hrun & Href & Hb & _ & Hmove).
    destruct (Hmove Ht) as (x0 & _ & _ & -> & _).
    pose proof (min_ref_lower b b' x Hwf Ht Hres) as Hle.
    unfold max_ref in Hle.
    rewrite (max_value_terminal _ _ _ _ Ht' Hu'), Href in Hle.
    simpl in Hle. exists x0. rewrite Hrun. by replace v with (-1) by lia.
Qed.

Lemma search_sees_win_witness :
  wf board2 ∧ order_ok elements ∧ (empties board2 < 6)%nat ∧
  terminal board2 = Ok false ∧
  ∃ a, max_value elements 6 board2 = Ok (Fin 1, Some a).
Proof.
  assert (wf board2) as Hwf by (split; [reflexivity | repeat constructor]).
  assert (order_ok elements) as Hok by (intros s; reflexivity).
  assert (empties board2 < 6)%nat as Hf by (vm_compute; lia).
  assert (terminal board2 = Ok false) as Ht by reflexivity.
  split_and!; [exact Hwf | exact Hok | exact Hf | exact Ht |].
  apply (proj1 (search_sees_win elements 6 board2
                  [ [Some X; Some X; Some X]; [Some O; Some O; None];
                    [None; None; None] ] (0, 2) Hwf Hok Hf Ht eq_refl)).
  reflexivity.
Defined.

(** ** Playing against the search *)

Lemma game_value_X (b : Board) :
  player b = X → game_value b = value_of (max_ref b).
Proof. intros Hp. unfold game_value. by rewrite bool_decide_eq_true_2. Qed.

Lemma game_value_O (b : Board) :
  player b = O → game_value b = value_of (min_ref b).
Proof.
  intros Hp. unfold game_value. rewrite bool_decide_eq_false_2; [done|].
  by rewrite Hp.
Qed.

Lemma ai_game_value order (fuel : nat) (ai : Player) (b b' : Board) :
  order_ok order → ai_game order fuel ai b b' →
  wf b → balanced b → (empties b < fuel)%nat →
  wf b' ∧ balanced b' ∧ not_worse ai (game_value b) (game_value b').
Proof.
  intros Hok Hgame. induction Hgame as
    [b | b b1 b2 a Ht Hp Hmm Hres Hgame IH
       | b b1 b2 a Ht Hp Hres Hgame IH]; intros Hwf Hbal Hf.
  - split_and!; [done | done |]. destruct ai; simpl; lia.
  - destruct (minimax_move order fuel b Hwf Hok Hf Ht)
      as (x & b1' & Hmm' & Hres' & Hval).
    rewrite Hmm in Hmm'. injection Hmm' as <-.
    rewrite Hres in Hres'. injection Hres' as <-.
    pose proof (result_empties _ _ _ Hres) as He.
    destruct (IH (result_wf _ _ _ Hwf Hres)
                 (proj1 (result_player_flip _ _ _ Hbal Hres)) ltac:(lia))
      as (Hwf2 & Hbal2 & Hnw).
    split_and!; [done | done |]. by rewrite <- (Hval Hbal).
  - pose proof (result_empties _ _ _ Hres) as He.
    destruct (result_player_flip _ _ _ Hbal Hres) as [Hbal1 Hp1].
    destruct (IH (result_wf _ _ _ Hwf Hres) Hbal1 ltac:(lia))
      as (Hwf2 & Hbal2 & Hnw).
    split_and!; [done | done |].
    destruct ai; simpl in *.
    + assert (player b = O) as HpO by (by destruct (player b)).
      rewrite HpO in Hp1. simpl in Hp1.
      rewrite (game_value_O b HpO).
      rewrite (game_value_X b1 Hp1) in Hnw.
      pose proof (min_ref_lower b b1 a Hwf Ht Hres). lia.
    + assert (player b = X) as HpX by (by destruct (player b)).
      rewrite HpX in Hp1. simpl in Hp1.
      rewrite (game_value_X b HpX).
      rewrite (game_value_O b1 Hp1) in Hnw.
      pose proof (max_ref_upper b b1 a Hwf Ht Hres). lia.
Qed.

(** X13. The side that plays the moves of [minimax] from [initial_state]
    never loses, whatever legal moves the other side plays: on no board
    of such a game does [winner] return the other side, and [utility]
    is never on the other side's side of [0]. *)
Theorem minimax_never_loses order (fuel : nat) (ai : Player) (b : Board) :
  order_ok order → (9 < fuel)%nat →
  ai_game order fuel ai initial_state b →
  winner b ≠ Ok (Some (opponent ai)) ∧
  ∃ u, utility b = Ok u ∧ not_worse ai 0 u.
Proof.
  intros Hok Hf Hgame.
  destruct (ai_game_value order fuel ai initial_state b Hok Hgame
              wf_initial_state balanced_initial_state)
    as (Hwf & Hbal & Hnw).
  { change (empties initial_state) with 9%nat. lia. }
  rewrite game_value_initial_state in Hnw.
  assert (∃ u, utility b = Ok u ∧ not_worse ai 0 u) as (u & Hu & Hsign).
  { destruct (terminal_wf b Hwf) as [[|] Ht].
    - exists (game_value b). split; [by apply game_value_terminal | done].
    - exists 0. split; [by apply utility_nonterminal|].
      destruct ai; simpl; lia. }
  split; [|by exists u].
  intros Hw. apply winner_terminal in Hw as [_ Hu'].
  rewrite Hu in Hu'. injection Hu' as ->.
  destruct ai; simpl in *; lia.
Qed.

Lemma minimax_never_loses_witness :
  order_ok elements ∧ (9 < 10)%nat ∧
  ai_game elements 10 O initial_state
    [ [None; None; None]; [None; Some X; None]; [None; None; None] ] ∧
  winner [ [None; None; None]; [None; Some X; None]; [None; None; None] ]
  ≠ Ok (Some X).
Proof.
  assert (order_ok elements) as Hok by (intros s; reflexivity).
  assert (9 < 10)%nat as Hf by lia.
  assert (ai_game elements 10 O initial_state
            [ [None; None; None]; [None; Some X; None];
              [None; None; None] ]) as Hgame.
  { apply (ai_game_opp elements 10 O initial_state
             [ [None; None; None]; [None; Some X; None];
               [None; None; None] ] _ (1, 1)).
    - reflexivity.
    - discriminate.
    - reflexivity.
    - apply ai_game_here. }
  split_and!; [exact Hok | exact Hf | exact Hgame |].
  exact (proj1 (minimax_never_loses elements 10 O _ Hok Hf Hgame)).
Defined.



(** ** Boards in the store *)

Lemma is_board_fresh_ne (h : heap) (l l' : loc) (b : Board) :
  is_board h l b → h !! l' = None → l ≠ l'.
Proof. intros (rs & Hl & _) Hl' ->. congruence. Qed.

(** X15. [initial_state()] returns a new list of three distinct new row
    objects, all cells empty, and leaves every object of the store as it
    was: two boards built by it share nothing. *)
Theorem initial_state_st_fresh (h : heap) :
  ∃ h' l rs,
    initial_state_st h = (h', Ok l) ∧
    (∀ k o, h !! k = Some o → h' !! k = Some o) ∧
    h !! l = None ∧
    h' !! l = Some (OBoard rs) ∧ NoDup rs ∧
    (∀ r, r ∈ rs → h !! r = None) ∧
    is_board h' l initial_state.
Proof.
  unfold initial_state_st.
  set (r0 := fresh (dom h)).
  set (h0 := <[r0 := ORow [EMPTY; EMPTY; EMPTY]]> h).
  set (r1 := fresh (dom h0)).
  set (h1 := <[r1 := ORow [EMPTY; EMPTY; EMPTY]]> h0).
  set (r2 := fresh (dom h1)).
  set (h2 := <[r2 := ORow [EMPTY; EMPTY; EMPTY]]> h1).
  set (l := fresh (dom h2)).
  assert (h !! r0 = None) as F0 by apply alloc_fresh.
  assert (h0 !! r1 = None) as F1 by apply alloc_fresh.
  assert (h1 !! r2 = None) as F2 by apply alloc_fresh.
  assert (h2 !! l = None) as F3 by apply alloc_fresh.
  assert (h ⊆ h0) as S0 by (by apply insert_subseteq).
  assert (h0 ⊆ h1) as S1 by (by apply insert_subseteq).
  assert (h1 ⊆ h2) as S2 by (by apply insert_subseteq).
  assert (h ⊆ h2) as S02 by (by repeat (etrans; [eassumption|])).
  assert (h0 !! r0 = Some (ORow [EMPTY; EMPTY; EMPTY])) as L0
    by apply lookup_insert_eq.
  assert (h1 !! r1 = Some (ORow [EMPTY; EMPTY; EMPTY])) as L1
    by apply lookup_insert_eq.
  assert (h2 !! r2 = Some (ORow [EMPTY; EMPTY; EMPTY])) as L2
    by apply lookup_insert_eq.
  assert (h1 !! r0 = Some (ORow [EMPTY; EMPTY; EMPTY])) as L0'
    by (by eapply lookup_weaken).
  assert (r0 ≠ r1) by (intros E; rewrite E in L0; congruence).
  assert (r0 ≠ r2) by (intros E; rewrite E in L0'; congruence).
  assert (r1 ≠ r2) by (intros E; rewrite E in L1; congruence).
  assert (NoDup [r0; r1; r2]) as Hnd.
  { apply NoDup_cons. split.
    { rewrite !elem_of_cons, elem_of_nil. by intros [?|[?|[]]]. }
    apply NoDup_cons. split; [|apply NoDup_singleton].
    rewrite elem_of_cons, elem_of_nil. by intros [?|[]]. }
  assert (h2 ⊆ <[l := OBoard [r0; r1; r2]]> h2) as S3
    by (by apply insert_subseteq).
  exists (<[l := OBoard [r0; r1; r2]]> h2), l, [r0; r1; r2].
  split_and!.
  - done.
  - intros k o Hk. eapply lookup_weaken; [exact Hk|]. by transitivity h2.
  - by eapply lookup_weaken_None.
  - apply lookup_insert_eq.
  - done.
  - intros r. rewrite !elem_of_cons, elem_of_nil.
    intros [->|[->|[->|[]]]].
    + done.
    + by eapply lookup_weaken_None.
    + eapply lookup_weaken_None; [exact F2|]. by transitivity h0.
  - exists [r0; r1; r2]. split_and!; [apply lookup_insert_eq | done |].
    repeat constructor; eapply lookup_weaken; try eassumption;
      by repeat (etrans; [eassumption|]).
Qed.

(** X16. [result] can be applied again and again to the same board, as
    the search does for every action: each call gives a new board object,
    and the boards obtained before, like the input, stay as they are. *)
Theorem result_st_branches (h : heap) (l : loc) (b : Board)
    (a1 a2 : Action) :
  is_board h l b → a1 ∈ actions b → a2 ∈ actions b →
  ∃ h1 l1 b1 h2 l2 b2,
    result_st l a1 h = (h1, Ok l1) ∧ result b a1 = Ok b1 ∧
    result_st l a2 h1 = (h2, Ok l2) ∧ result b a2 = Ok b2 ∧
    l1 ≠ l2 ∧ l ≠ l1 ∧ l ≠ l2 ∧
    is_board h2 l b ∧ is_board h2 l1 b1 ∧ is_board h2 l2 b2.
Proof.
  intros Hb Ha1 Ha2.
  destruct (result_legal b a1 Ha1) as (n1 & m1 & row1 & -> & Hn1 & Hm1 & Hr1).
  destruct (result_legal b a2 Ha2) as (n2 & m2 & row2 & -> & Hn2 & Hm2 & Hr2).
  destruct (result_st_ok h l b n1 m1 row1 Hb Hn1 Hm1)
    as (h1 & l1 & Hst1 & Hsub1 & Hfresh1 & Hb1).
  pose proof (is_board_mono _ _ _ _ Hsub1 Hb) as Hb'.
  destruct (result_st_ok h1 l b n2 m2 row2 Hb' Hn2 Hm2)
    as (h2 & l2 & Hst2 & Hsub2 & Hfresh2 & Hb2).
  exists h1, l1, (<[n1 := <[m1 := Some (player b)]> row1]> b),
    h2, l2, (<[n2 := <[m2 := Some (player b)]> row2]> b).
  split_and!; [done | done | done | done | | | | | | done].
  - exact (is_board_fresh_ne h1 l1 l2 _ Hb1 Hfresh2).
  - exact (is_board_fresh_ne h l l1 _ Hb Hfresh1).
  - exact (is_board_fresh_ne h1 l l2 _ Hb' Hfresh2).
  - by eapply is_board_mono.
  - by eapply is_board_mono.
Qed.

Lemma result_st_branches_witness :
  is_board heap0 4%positive initial_state ∧
  (0, 0) ∈ actions initial_state ∧ (1, 1) ∈ actions initial_state ∧
  ∃ h2 l1 l2,
    l1 ≠ l2 ∧ is_board h2 4%positive initial_state ∧
    is_board h2 l1
      [ [Some X; None; None]; [None; None; None]; [None; None; None] ] ∧
    is_board h2 l2
      [ [None; None; None]; [None; Some X; None]; [None; None; None] ].
Proof.
  assert (is_board heap0 4%positive initial_state) as Hb.
  { exists [1; 2; 3]%positive.
    split; [reflexivity|]. split; [|repeat constructor].
    apply (bool_decide_unpack _). vm_compute. reflexivity. }
  assert ((0, 0) ∈ actions initial_state) as Ha1.
  { apply (bool_decide_unpack _). vm_compute. reflexivity. }
  assert ((1, 1) ∈ actions initial_state) as Ha2.
  { apply (bool_decide_unpack _). vm_compute. reflexivity. }
  split_and!; [exact Hb | exact Ha1 | exact Ha2 |].
  destruct (result_st_branches heap0 4%positive initial_state (0, 0) (1, 1)
              Hb Ha1 Ha2)
    as (h1 & l1 & b1 & h2 & l2 & b2 & _ & Hr1 & _ & Hr2 & Hne & _ & _
        & H0 & H1 & H2).
  vm_compute in Hr1. injection Hr1 as <-.
  vm_compute in Hr2. injection Hr2 as <-.
  exists h2, l1, l2. exact (conj Hne (conj H0 (conj H1 H2))).
Defined.

(** ** Boards without a first cell *)

(** X17. A board with no rows, or with an empty first row, is outside what
    the queries accept: [winner] raises [IndexError] on its first test,
    and so do [terminal], [utility], [minimax], [max_value] and
    [min_value]. *)
Theorem no_first_cell_raises order (fuel : nat) (b : Board) :
  b = [] ∨ (∃ rest, b = [] :: rest) →
  winner b = Raise IndexError ∧
  terminal b = Raise IndexError ∧
  utility b = Raise IndexError ∧
  minimax order fuel b = Raise IndexError ∧
  max_value order (S fuel) b = Raise IndexError ∧
  min_value order (S fuel) b = Raise IndexError.
Proof.
  intros Hb.
  assert (cell_at b 0 0 = Raise IndexError) as Hc.
  { destruct Hb as [->|[rest ->]]; reflexivity. }
  assert (winner b = Raise IndexError) as Hw.
  { rewrite winner_lines. simpl. unfold check_line at 1, line3 at 1.
    simpl. by rewrite Hc. }
  assert (terminal b = Raise IndexError) as Ht.
  { unfold terminal. by rewrite Hw. }
  split_and!; [done | done | | | |].
  - unfold utility. by rewrite Hw.
  - unfold minimax. by rewrite Ht.
  - simpl. by rewrite Ht.
  - simpl. by rewrite Ht.
Qed.

Lemma no_first_cell_raises_witness :
  minimax elements 10 [] = Raise IndexError ∧
  winner [ []; [Some X; Some X; Some X] ] = Raise IndexError.
Proof.
  split.
  - apply (no_first_cell_raises elements 10 []). by left.
  - apply (no_first_cell_raises elements 10 [ []; [Some X; Some X; Some X] ]).
    right. by eexists.
Defined.
